(** * indy_credx.bindings: the Python/native boundary of indy-credx

    A shallow embedding of [wrappers/python/indy_credx/bindings.py] and the
    properties of its marshaling and lifetime protocol.

    The Python functions are state-passing functions over a [World] that
    holds the module global [LIB], the ctypes instances that are alive, the
    state of the native side and the trace of what crossed the boundary.
    The native library, the dynamic loader, [json] and the members of
    [CredxErrorCode] are not part of the module: they are the fields of the
    [Runtime] interface and every statement is made for all of them. *)

From Stdlib Require Import ZArith Lia.
From Stdlib Require Import Floats.SpecFloat.
From stdpp Require Import gmap strings list.

#[local] Set Warnings "-register-all".
#[local] Open Scope Z_scope.

(** ** Text and bytes

    A Python [str] is a sequence of code points, a [bytes] a sequence of
    octets; both are kept as lists of integers. *)

Abbreviation pystr := (list Z) (only parsing).
Abbreviation bytes := (list Z) (only parsing).

Definition str_of (s : string) : pystr :=
  (λ a, Z.of_N (Ascii.N_of_ascii a)) <$> String.list_ascii_of_string s.

(** The codec behind [str.encode("utf-8")] and [bytes.decode("utf-8")]:
    strict, so surrogates are refused in both directions and the decoder
    accepts shortest forms only. *)
Module Utf8.

Definition is_surrogate (c : Z) : bool := (0xD800 <=? c) && (c <=? 0xDFFF).

Definition encode_char (c : Z) : option bytes :=
  if c <? 0 then None
  else if c <? 0x80 then Some [c]
  else if c <? 0x800 then Some [0xC0 + c / 64; 0x80 + c mod 64]
  else if c <? 0x10000 then
    if is_surrogate c then None
    else Some [0xE0 + c / 4096; 0x80 + (c / 64) mod 64; 0x80 + c mod 64]
  else if c <? 0x110000 then
    Some [0xF0 + c / 262144; 0x80 + (c / 4096) mod 64;
          0x80 + (c / 64) mod 64; 0x80 + c mod 64]
  else None.

Fixpoint encode (s : pystr) : option bytes :=
  match s with
  | [] => Some []
  | c :: s' =>
      match encode_char c, encode s' with
      | Some b, Some r => Some (b ++ r)
      | _, _ => None
      end
  end.

Definition is_cont (b : Z) : bool := (0x80 <=? b) && (b <? 0xC0).

Fixpoint decode (b : bytes) : option pystr :=
  match b with
  | [] => Some []
  | b0 :: r0 =>
      if b0 <? 0 then None
      else if b0 <? 0x80 then cons b0 <$> decode r0
      else if b0 <? 0xC2 then None
      else if b0 <? 0xE0 then
        match r0 with
        | b1 :: r1 =>
            if is_cont b1
            then cons ((b0 - 0xC0) * 64 + (b1 - 0x80)) <$> decode r1
            else None
        | _ => None
        end
      else if b0 <? 0xF0 then
        match r0 with
        | b1 :: b2 :: r2 =>
            let c := (b0 - 0xE0) * 4096 + (b1 - 0x80) * 64 + (b2 - 0x80) in
            if is_cont b1 && is_cont b2 && (0x800 <=? c)
               && negb (is_surrogate c)
            then cons c <$> decode r2
            else None
        | _ => None
        end
      else if b0 <? 0xF5 then
        match r0 with
        | b1 :: b2 :: b3 :: r3 =>
            let c := (b0 - 0xF0) * 262144 + (b1 - 0x80) * 4096
                     + (b2 - 0x80) * 64 + (b3 - 0x80) in
            if is_cont b1 && is_cont b2 && is_cont b3
               && (0x10000 <=? c) && (c <? 0x110000)
            then cons c <$> decode r3
            else None
        | _ => None
        end
      else None
  end.

(** A Unicode scalar value: a code point that is not a surrogate. *)
Definition scalar (c : Z) : Prop :=
  0 ≤ c < 0xD800 ∨ 0xE000 ≤ c < 0x110000.

End Utf8.

(** What the native side reads through a [char *]: the octets before the
    first NUL (also what [c_char_p.value] gives back). *)
Fixpoint c_string (b : bytes) : bytes :=
  match b with
  | [] => []
  | x :: r => if x =? 0 then [] else x :: c_string r
  end.

(** [needle in hay] on two [str]. *)
Fixpoint is_prefix (p s : pystr) : bool :=
  match p, s with
  | [], _ => true
  | x :: p', y :: s' => (x =? y) && is_prefix p' s'
  | _ :: _, [] => false
  end.

Fixpoint is_substring (needle hay : pystr) : bool :=
  is_prefix needle hay ||
  match hay with
  | [] => false
  | _ :: hay' => is_substring needle hay'
  end.

(** ** Python values

    The values [json.loads] can produce.  A [float] is an IEEE 754 double
    in the specification format of the standard library. *)

Inductive pyvalue :=
| PNone
| PBool (b : bool)
| PInt (z : Z)
| PFloat (f : spec_float)
| PStr (s : pystr)
| PList (l : list pyvalue)
| PDict (d : gmap (list Z) pyvalue).

(** [CredxError(code, message, extra)], an exception carrying a member of
    [CredxErrorCode] (kept as its integer value). *)
Record CredxError := mkCredxError {
  code : Z;
  message : pyvalue;
  extra : pyvalue;
}.

Inductive exn :=
| CredxErrorExc (e : CredxError)
| JSONDecodeError
| ValueError
| TypeError
| KeyError
| AttributeError
| UnicodeEncodeError
| UnicodeDecodeError
| OSError.

Inductive result (A : Type) :=
| Ok (a : A)
| Raise (e : exn).
Arguments Ok {A} a.
Arguments Raise {A} e.

(** Truth value of an object, as tested by [if], [and], [or], [not]. *)
Definition float_is_zero (f : spec_float) : bool :=
  match f with S754_zero _ => true | _ => false end.

Definition truthy (v : pyvalue) : bool :=
  match v with
  | PNone => false
  | PBool b => b
  | PInt z => negb (z =? 0)
  | PFloat f => negb (float_is_zero f)
  | PStr s => match s with [] => false | _ => true end
  | PList l => match l with [] => false | _ => true end
  | PDict d => negb (bool_decide (d = ∅))
  end.

(** [key in v] for a [str] key. *)
Definition py_contains (key : pystr) (v : pyvalue) : result bool :=
  match v with
  | PDict d => Ok (bool_decide (is_Some (d !! key)))
  | PList l =>
      Ok (existsb (λ x, match x with
                        | PStr s => bool_decide (s = key)
                        | _ => false
                        end) l)
  | PStr s => Ok (is_substring key s)
  | _ => Raise TypeError
  end.

(** [v[key]] for a [str] key. *)
Definition py_getitem (v : pyvalue) (key : pystr) : result pyvalue :=
  match v with
  | PDict d => match d !! key with Some x => Ok x | None => Raise KeyError end
  | _ => Raise TypeError
  end.

(** [v.get(key)]. *)
Definition py_get (v : pyvalue) (key : pystr) : result pyvalue :=
  match v with
  | PDict d => Ok (default PNone (d !! key))
  | _ => Raise AttributeError
  end.

(** The integer a value compares equal to, if any ([True == 1],
    [2.0 == 2]): what decides the lookup of a value among the members of
    an enumeration. *)
Definition float_as_int (f : spec_float) : option Z :=
  match f with
  | S754_zero _ => Some 0
  | S754_finite s m e =>
      let n := if s then Z.neg m else Z.pos m in
      if 0 <=? e then Some (n * 2 ^ e)
      else if n mod 2 ^ (- e) =? 0 then Some (n / 2 ^ (- e)) else None
  | _ => None
  end.

Definition as_int (v : pyvalue) : option Z :=
  match v with
  | PInt z => Some z
  | PBool b => Some (if b then 1 else 0)
  | PFloat f => float_as_int f
  | _ => None
  end.

(** ** ctypes *)

(** [c_int64(z)]: ctypes does no overflow checking, the value is reduced
    to 64 bits, two's complement. *)
Definition wrap64 (z : Z) : Z := (z + 2 ^ 63) mod 2 ^ 64 - 2 ^ 63.

(** The instances of the two classes of the module that carry a
    destructor.  They are mutable (the native side writes through
    [byref]) and have an identity, so they live in a store. *)
Inductive pyobj :=
| ObjectHandle (value : Z)
| lib_string (value : option bytes).

Abbreviation ref := nat (only parsing).

(** An argument of a foreign call on the Python side ... *)
Inductive pyarg :=
| ANone                 (* None *)
| ACharP (b : bytes)    (* c_char_p(b) *)
| AInt64 (z : Z)        (* c_int64(z), already reduced *)
| AObj (r : ref)        (* an ObjectHandle or lib_string instance *)
| AByref (r : ref).     (* byref(instance) *)

(** ... and what reaches the native function. *)
Inductive carg :=
| CNull
| CChars (b : bytes)
| CInt (z : Z)
| CPtr (p : option bytes)
| COut (r : ref).

Definition c_int64 (z : Z) : pyarg := AInt64 (wrap64 z).

(** [x or d] for an optional integer [x]: [None] and [0] are both false. *)
Definition int_or (x : option Z) (d : Z) : Z :=
  match x with
  | None => d
  | Some n => if n =? 0 then d else n
  end.

(** The argument of [encode_str]. *)
Inductive strarg :=
| SStr (s : pystr)
| SBytes (b : bytes)
| SMemoryview (b : bytes).

Definition decode_str (value : bytes) : result pystr :=
  match Utf8.decode value with
  | Some s => Ok s
  | None => Raise UnicodeDecodeError
  end.

Definition encode_str (arg : option strarg) : result pyarg :=
  match arg with
  | None => Ok ANone
  | Some (SStr s) =>
      match Utf8.encode s with
      | Some b => Ok (ACharP b)
      | None => Raise UnicodeEncodeError
      end
  | Some (SBytes b) => Ok (ACharP b)
  | Some (SMemoryview _) => Raise TypeError   (* c_char_p wants bytes *)
  end.

(** ** The world outside the module *)

(** A loaded shared object, as [ctypes.CDLL] keeps it. *)
Record CDLL := mkCDLL {
  cdll_name : string;
  cdll_handle : Z;
}.

(** What the module does that can be observed from outside, oldest
    first. *)
Inductive event :=
| EvOpen (path : string)                  (* CDLL(path) *)
| EvFind (name : string)                  (* find_library(name) *)
| EvCall (fn : string) (args : list carg) (* a call of a native entry point *)
| EvLog (level msg : string).             (* LOGGER.<level>(msg) *)

(** Everything the module uses and does not define.

    - [Host] is the state of the native side (the objects behind the
      handles, the last-error slot, ...), threaded through every call;
    - [dlopen] gives the handle of a shared object or fails ([OSError]);
    - [dlsym lib fn] tells whether [lib] exports [fn];
    - [native_call lib fn args h] runs an entry point: the [int] that
      ctypes returns and the values stored through the [byref] arguments,
      in the order of these arguments;
    - [json_loads] and [json_dumps] are the functions of the [json]
      module, on well-typed arguments;
    - [CredxErrorCode_members] are the values of the members of
      [CredxErrorCode], and [WRAPPER] is the value of the member of this
      name. *)
Class Runtime := {
  Host : Type;
  sys_platform : string;
  module_dir : string;
  path_join : string → string → string;
  dlopen : string → Host → option Z * Host;
  find_library : string → option string;
  dlsym : CDLL → string → bool;
  native_call : CDLL → string → list carg → Host → (Z * list pyobj) * Host;
  json_loads : bytes → result pyvalue;
  json_dumps : list pystr → pystr;
  CredxErrorCode_members : list Z;
  WRAPPER : Z;
}.

Section State.
Context {rt : Runtime}.

Record World := mkWorld {
  LIB : option CDLL;          (* the module global *)
  heap : gmap nat pyobj;      (* the live ctypes instances *)
  next_ref : nat;             (* the next identity *)
  host : Host;
  trace : list event;
}.

(** A computation returns a value or raises, and leaves a world; [None]
    means that the unrolling of [get_library] below was too shallow. *)
Definition M (A : Type) : Type := World → option (result A * World).

Definition ret {A} (a : A) : M A := λ w, Some (Ok a, w).

Definition bind {A B} (m : M A) (k : A → M B) : M B := λ w,
  match m w with
  | Some (Ok a, w') => k a w'
  | Some (Raise e, w') => Some (Raise e, w')
  | None => None
  end.

Definition raise {A} (e : exn) : M A := λ w, Some (Raise e, w).

Definition lift {A} (r : result A) : M A := λ w, Some (r, w).

Definition out_of_fuel {A} : M A := λ _, None.

(** [try: m except <the e with h e = Some k>: k]. *)
Definition try_except {A} (m : M A) (h : exn → option (M A)) : M A := λ w,
  match m w with
  | Some (Raise e, w') =>
      match h e with
      | Some k => k w'
      | None => Some (Raise e, w')
      end
  | r => r
  end.

(** An exception that leaves a destructor is reported on stderr and
    dropped. *)
Definition finalize (m : M unit) : M unit := λ w,
  match m w with
  | Some (Raise _, w') => Some (Ok tt, w')
  | r => r
  end.

Definition get_LIB : M (option CDLL) := λ w, Some (Ok (LIB w), w).

Definition set_LIB (l : CDLL) : M unit := λ w,
  Some (Ok tt, mkWorld (Some l) (heap w) (next_ref w) (host w) (trace w)).

Definition emit (e : event) : M unit := λ w,
  Some (Ok tt, mkWorld (LIB w) (heap w) (next_ref w) (host w) (trace w ++ [e])).

(** A new instance. *)
Definition alloc (o : pyobj) : M ref := λ w,
  Some (Ok (next_ref w),
        mkWorld (LIB w) (<[next_ref w := o]> (heap w)) (S (next_ref w))
                (host w) (trace w)).

Definition dealloc (r : ref) : M unit := λ w,
  Some (Ok tt, mkWorld (LIB w) (delete r (heap w)) (next_ref w) (host w) (trace w)).

(** [.value] of an [ObjectHandle] and of a [lib_string]. *)
Definition handle_value (h : gmap nat pyobj) (r : ref) : Z :=
  match h !! r with
  | Some (ObjectHandle v) => v
  | _ => 0
  end.

Definition string_value (h : gmap nat pyobj) (r : ref) : option bytes :=
  match h !! r with
  | Some (lib_string p) => p
  | _ => None
  end.

Definition value (r : ref) : M (option bytes) := λ w,
  Some (Ok (string_value (heap w) r), w).

(** Conversion of the arguments of a foreign call. *)
Definition marshal (h : gmap nat pyobj) (a : pyarg) : carg :=
  match a with
  | ANone => CNull
  | ACharP b => CChars (c_string b)
  | AInt64 z => CInt z
  | AObj r =>
      match h !! r with
      | Some (ObjectHandle v) => CInt v
      | Some (lib_string p) => CPtr p
      | None => CNull
      end
  | AByref r => COut r
  end.

Definition out_refs (args : list carg) : list ref :=
  omap (λ a, match a with COut r => Some r | _ => None end) args.

(** The native side stores through a [byref] argument a value of the
    type of the instance behind it. *)
Definition store (h : gmap nat pyobj) (ro : ref * pyobj) : gmap nat pyobj :=
  match h !! ro.1, ro.2 with
  | Some (ObjectHandle _), ObjectHandle v => <[ro.1 := ObjectHandle v]> h
  | Some (lib_string _), lib_string p => <[ro.1 := lib_string p]> h
  | _, _ => h
  end.

(** [getattr(lib, fn)]. *)
Definition getattr (lib : CDLL) (fn : string) : M unit :=
  if dlsym lib fn then ret tt else raise AttributeError.

(** [lib_fn( *args )]: the call itself. *)
Definition call (lib : CDLL) (fn : string) (args : list pyarg) : M Z := λ w,
  let cargs := marshal (heap w) <$> args in
  let '((status, outs), hs) := native_call lib fn cargs (host w) in
  Some (Ok status,
        mkWorld (LIB w)
                (foldl store (heap w) (zip (out_refs cargs) outs))
                (next_ref w) hs (trace w ++ [EvCall fn cargs])).

Definition LOGGER (level msg : string) : M unit := emit (EvLog level msg).

End State.

#[global] Instance M_ret `{Runtime} : MRet M := @ret _.
#[global] Instance M_bind `{Runtime} : MBind M := λ A B k m, bind m k.

(** ** The module *)

Section Bindings.
Context {rt : Runtime}.

(** Modelled from the spec: [CredxErrorCode] and [CredxError] are imported
    from [.error], which is not among the sources.  The spec makes the
    error code "a closed enumeration mirrored from the native library's
    codes, plus one managed-only variant": calling the enumeration on a
    value gives the member with this value and raises [ValueError] when
    there is none. *)
Definition CredxErrorCode (v : pyvalue) : result Z :=
  match as_int v with
  | Some z =>
      if bool_decide (z ∈ CredxErrorCode_members) then Ok z
      else Raise ValueError
  | None => Raise ValueError
  end.

(** [json.loads(v)]: [None] is not a document. *)
Definition loads (v : option bytes) : result pyvalue :=
  match v with
  | None => Raise TypeError
  | Some b => json_loads b
  end.

(** [CDLL(path)]. *)
Definition CDLL_open (path : string) : M CDLL := λ w,
  let '(h, hs) := dlopen path (host w) in
  let w' := mkWorld (LIB w) (heap w) (next_ref w) hs
                    (trace w ++ [EvOpen path]) in
  match h with
  | Some z => Some (Ok (mkCDLL path z), w')
  | None => Some (Raise OSError, w')
  end.

Definition lib_prefix_mapping : gmap string string :=
  {[ "win32" := EmptyString ]}.
Definition lib_suffix_mapping : gmap string string :=
  {[ "darwin" := ".dylib"; "win32" := ".dll" ]}.

Definition _load_library (lib_name : string) : M CDLL :=
  r ← try_except
        (let os_name := sys_platform in
         let lib_prefix := default "lib" (lib_prefix_mapping !! os_name) in
         let lib_suffix := default ".so" (lib_suffix_mapping !! os_name) in
         let lib_path :=
           path_join module_dir (lib_prefix +:+ lib_name +:+ lib_suffix) in
         lib ← CDLL_open lib_path; mret (Some lib))
        (λ e, match e with
              | KeyError =>
                  Some (LOGGER "debug" "Unknown platform for shared library";;
                        mret None)
              | OSError =>
                  Some (LOGGER "warning" "Library not loaded from python package";;
                        mret None)
              | _ => None
              end);
  match r with
  | Some lib => mret lib
  | None =>
      emit (EvFind lib_name);;
      match find_library lib_name with
      | None | Some EmptyString =>
          raise (CredxErrorExc
                   (mkCredxError WRAPPER
                      (PStr (str_of ("Error loading library: " +:+ lib_name)))
                      PNone))
      | Some lib_path =>
          try_except (CDLL_open lib_path)
            (λ e, match e with
                  | OSError =>
                      Some (raise (CredxErrorExc
                              (mkCredxError WRAPPER
                                 (PStr (str_of ("Error loading library: "
                                                +:+ lib_name)))
                                 PNone)))
                  | _ => None
                  end)
      end
  end.

(** [msg and "message" in msg and "code" in msg], as a condition. *)
Definition has_message_and_code (msg : pyvalue) : result bool :=
  if truthy msg then
    match py_contains (str_of "message") msg with
    | Ok true => py_contains (str_of "code") msg
    | r => r
    end
  else Ok false.

(** [CredxError(CredxErrorCode(msg["code"]), msg["message"],
    msg.get("extra"))], the arguments evaluated from left to right. *)
Definition error_of_payload (msg : pyvalue) : result CredxError :=
  match py_getitem msg (str_of "code") with
  | Raise e => Raise e
  | Ok c =>
      match CredxErrorCode c with
      | Raise e => Raise e
      | Ok code =>
          match py_getitem msg (str_of "message") with
          | Raise e => Raise e
          | Ok m =>
              match py_get msg (str_of "extra") with
              | Raise e => Raise e
              | Ok x => Ok (mkCredxError code m x)
              end
          end
      end
  end.

(** The functions below call [get_library], and [get_library] calls
    [do_call] when it has just loaded the library.  They are first
    written for a given [get_library] ... *)
Section With_get_library.
Variable get_library : M CDLL.

(** [lib_string.__del__]. *)
Definition lib_string__del__with (self : ref) : M unit :=
  lib ← get_library;
  getattr lib "credx_string_free";;
  call lib "credx_string_free" [AObj self];;
  mret tt.

(** The end of the lifetime of a [lib_string]: the interpreter runs
    the destructor, once, and frees the instance. *)
Definition drop_lib_string_with (r : ref) : M unit :=
  finalize (lib_string__del__with r);;
  dealloc r.

(** The local [err_json] dies when the function returns.  When an
    exception leaves the function, the traceback keeps the frame and
    its locals: the destructor does not run before the caller is done
    with the exception. *)
Definition get_current_error_with (expect : bool)
  : M (option CredxError) :=
  err_json ← alloc (lib_string None);
  returned ←
    (lib ← get_library;
     getattr lib "credx_get_current_error";;
     status ← call lib "credx_get_current_error" [AByref err_json];
     if status =? 0 then
       msg ← try_except
               (v ← value err_json; lift (loads v))
               (λ e, match e with
                     | JSONDecodeError =>
                         Some (LOGGER "warning"
                                 "JSON decode error for credx_get_current_error";;
                               mret PNone)
                     | _ => None
                     end);
       c ← lift (has_message_and_code msg);
       if c : bool then
         e ← lift (error_of_payload msg);
         mret (Some (Some e))
       else if negb expect then mret (Some None)
       else mret None
     else mret None);
  result ←
    match returned with
    | Some r => mret r
    | None =>
        mret (Some (mkCredxError WRAPPER (PStr (str_of "Unknown error")) PNone))
    end;
  drop_lib_string_with err_json;;
  mret result.

Definition do_call_with (fn_name : string) (args : list pyarg) : M unit :=
  lib ← get_library;
  getattr lib fn_name;;
  result ← call lib fn_name args;
  if result =? 0 then mret tt
  else
    e ← get_current_error_with true;
    match e with
    | Some e => raise (CredxErrorExc e)
    | None => raise TypeError     (* raise None *)
    end.

End With_get_library.

(** ... and [get_library] is unrolled [n] times. *)
Fixpoint get_library_n (n : nat) : M CDLL :=
  match n with
  | O => out_of_fuel
  | S n' =>
      lib ← get_LIB;
      match lib with
      | None =>
          l ← _load_library "indy_credx";
          set_LIB l;;
          do_call_with (get_library_n n') "credx_set_default_logger" [];;
          mret l                      (* return LIB *)
      | Some l => mret l
      end
  end.

(** Two levels are what an execution can reach: a call of [get_library]
    made while [get_library] runs finds [LIB] assigned (see
    [get_library_depth] below). *)
Definition get_library : M CDLL := get_library_n 2.

Definition do_call : string → list pyarg → M unit :=
  do_call_with get_library.

Definition get_current_error : bool → M (option CredxError) :=
  get_current_error_with get_library.

Definition lib_string__del__ : ref → M unit :=
  lib_string__del__with get_library.

Definition drop_lib_string : ref → M unit :=
  drop_lib_string_with get_library.

(** [lib_string.opt_str] and [lib_string.__str__]. *)
Definition opt_str (self : ref) : M (option pystr) :=
  v ← value self;
  match v with
  | Some b => s ← lift (decode_str b); mret (Some s)
  | None => mret None
  end.

Definition lib_string__str__ (self : ref) : M pystr :=
  v ← value self;
  match v with
  | Some b => lift (decode_str b)
  | None => mret []
  end.

Definition object_free (handle : ref) : M unit :=
  lib ← get_library;
  getattr lib "credx_object_free";;
  call lib "credx_object_free" [AObj handle];;
  mret tt.

(** [ObjectHandle.__del__]. *)
Definition ObjectHandle__del__ (self : ref) : M unit :=
  object_free self.

(** The end of the lifetime of an [ObjectHandle] instance. *)
Definition drop_ObjectHandle (r : ref) : M unit :=
  finalize (ObjectHandle__del__ r);;
  dealloc r.

(** Several instances reach the end of their lifetime, one after the
    other. *)
Fixpoint drop_ObjectHandles (rs : list ref) : M unit :=
  match rs with
  | [] => mret tt
  | r :: rs' => drop_ObjectHandle r;; drop_ObjectHandles rs'
  end.

Definition object_get_json (handle : ref) : M ref :=
  result ← alloc (lib_string None);
  do_call "credx_object_get_json" [AObj handle; AByref result];;
  mret result.

(** [IndyObject.to_json]: the [lib_string] is a temporary. *)
Definition to_json (handle : ref) : M pystr :=
  s ← object_get_json handle;
  r ← lib_string__str__ s;
  drop_lib_string s;;
  mret r.

Definition create_schema (origin_did name version : pystr)
    (attr_names : list pystr) (seq_no : option Z) : M ref :=
  result ← alloc (ObjectHandle 0);
  a1 ← lift (encode_str (Some (SStr origin_did)));
  a2 ← lift (encode_str (Some (SStr name)));
  a3 ← lift (encode_str (Some (SStr version)));
  a4 ← lift (encode_str (Some (SStr (json_dumps attr_names))));
  do_call "credx_create_schema"
    [a1; a2; a3; a4; c_int64 (int_or seq_no (-1)); AByref result];;
  mret result.

End Bindings.

(** ** Vocabulary of the statements *)

Section Vocabulary.
Context {rt : Runtime}.

(** The error that [get_current_error] makes up. *)
Definition unknown_error : CredxError :=
  mkCredxError WRAPPER (PStr (str_of "Unknown error")) PNone.

(** The world a computation leaves. *)
Definition after {A} (m : M A) (w : World) : World :=
  match m w with
  | Some (_, w') => w'
  | None => w
  end.

(** [m] does not touch [LIB] once it is assigned. *)
Definition stable {A} (m : M A) : Prop :=
  ∀ w r w' l, LIB w = Some l → m w = Some (r, w') → LIB w' = Some l.

(** Once the library is loaded, [m] finishes, keeps the library, only
    adds to the trace, and a value it returns satisfies [Q]. *)
Definition total {A} (m : M A) (Q : A → Prop) : Prop :=
  ∀ w l, LIB w = Some l →
    ∃ r w', m w = Some (r, w') ∧ LIB w' = Some l
            ∧ trace w `prefix_of` trace w'
            ∧ ∀ a, r = Ok a → Q a.

(** [m1] and [m2] do the same once the library is loaded. *)
Definition agree {A} (m1 m2 : M A) : Prop :=
  ∀ w l, LIB w = Some l → m1 w = m2 w.

End Vocabulary.

(** ** Observations on the trace *)

(** The calls of [credx_object_free] made for the handle value [v]. *)
Fixpoint object_free_calls (v : Z) (tr : list event) : nat :=
  match tr with
  | [] => 0%nat
  | EvCall fn [CInt x] :: tr' =>
      if String.eqb fn "credx_object_free" && (x =? v)
      then S (object_free_calls v tr')
      else object_free_calls v tr'
  | _ :: tr' => object_free_calls v tr'
  end.

(** The calls of [credx_string_free], whatever the argument. *)
Fixpoint string_free_calls (tr : list event) : nat :=
  match tr with
  | [] => 0%nat
  | EvCall fn _ :: tr' =>
      if String.eqb fn "credx_string_free"
      then S (string_free_calls tr')
      else string_free_calls tr'
  | _ :: tr' => string_free_calls tr'
  end.

(** The sequence number given to the first call of [credx_create_schema]:
    its fifth argument. *)
Fixpoint seq_no_passed (tr : list event) : option Z :=
  match tr with
  | [] => None
  | EvCall fn args :: tr' =>
      if String.eqb fn "credx_create_schema"
      then match args with
           | [_; _; _; _; CInt z; _] => Some z
           | _ => None
           end
      else seq_no_passed tr'
  | _ :: tr' => seq_no_passed tr'
  end.

(** ** A small native library

    An instance of [Runtime] to run the definitions on.  The shared object
    sits next to the module; [credx_get_current_error] answers [fetch]
    (a status and what it stores through its argument); the entry points
    listed in [failing] return 1 and the others 0.  The decoder knows the
    three documents below and refuses every other input. *)

Definition quoted (s : string) : pystr := [34] ++ str_of s ++ [34].

(** [{"code": 1, "message": "boom"}] *)
Definition doc_error : bytes :=
  str_of "{" ++ quoted "code" ++ str_of ": 1, " ++ quoted "message"
  ++ str_of ": " ++ quoted "boom" ++ str_of "}".

(** [{"code": 1}] *)
Definition doc_no_message : bytes :=
  str_of "{" ++ quoted "code" ++ str_of ": 1}".

(** [{"code": 4242, "message": "boom"}] *)
Definition doc_unknown_code : bytes :=
  str_of "{" ++ quoted "code" ++ str_of ": 4242, " ++ quoted "message"
  ++ str_of ": " ++ quoted "boom" ++ str_of "}".

Definition sample_loads (b : bytes) : result pyvalue :=
  if bool_decide (b = doc_error) then
    Ok (PDict {[ str_of "code" := PInt 1; str_of "message" := PStr (str_of "boom") ]})
  else if bool_decide (b = doc_no_message) then
    Ok (PDict {[ str_of "code" := PInt 1 ]})
  else if bool_decide (b = doc_unknown_code) then
    Ok (PDict {[ str_of "code" := PInt 4242; str_of "message" := PStr (str_of "boom") ]})
  else Raise JSONDecodeError.

Definition quoted_str (x : pystr) : pystr := [34] ++ x ++ [34].

Fixpoint sample_dumps_items (l : list pystr) : pystr :=
  match l with
  | [] => []
  | [x] => quoted_str x
  | x :: l' => quoted_str x ++ str_of ", " ++ sample_dumps_items l'
  end.

Definition sample_path : string := "/site-packages/indy_credx/libindy_credx.so".

Definition sample (fetch : Z * list pyobj) (failing : list string) : Runtime := {|
  Host := unit;
  sys_platform := "linux";
  module_dir := "/site-packages/indy_credx";
  path_join := λ a b, a +:+ "/" +:+ b;
  dlopen := λ p h, (if String.eqb p sample_path then Some 1 else None, h);
  find_library := λ _, None;
  dlsym := λ _ _, true;
  native_call := λ _ fn _ h,
    if String.eqb fn "credx_get_current_error" then (fetch, h)
    else ((if bool_decide (fn ∈ failing) then 1 else 0, []), h);
  json_loads := sample_loads;
  json_dumps := λ l, str_of "[" ++ sample_dumps_items l ++ str_of "]";
  CredxErrorCode_members := [0; 1; 2; 3; 4; 5; 6; 7; 8; 99];
  WRAPPER := 99;
|}.

(** The world of a process that has just imported the module, and of one
    that has loaded the library. *)
Definition initial (rt : Runtime) (h : @Host rt) : @World rt :=
  mkWorld None ∅ 0%nat h [].

Definition sample_lib : CDLL := mkCDLL sample_path 1.

Definition loaded (rt : Runtime) (h : @Host rt) (objs : list pyobj) : @World rt :=
  mkWorld (Some sample_lib) (list_to_map (zip (seq 0 (length objs)) objs))
          (length objs) h [].

(** The native libraries of the examples. *)
Definition rt_error : Runtime :=
  sample (0, [lib_string (Some doc_error)]) ["credx_create_schema"].
Definition rt_fetch_fails : Runtime := sample (1, []) [].
Definition rt_null : Runtime := sample (0, []) [].
Definition rt_no_message : Runtime :=
  sample (0, [lib_string (Some doc_no_message)]) [].
Definition rt_unknown_code : Runtime :=
  sample (0, [lib_string (Some doc_unknown_code)]) [].

(** ** More vocabulary and sample libraries *)

(** The file [_load_library] looks for next to the module. *)
Definition package_path {rt : Runtime} (lib_name : string) : string :=
  path_join module_dir
    (default "lib" (lib_prefix_mapping !! sys_platform)
     +:+ lib_name
     +:+ default ".so" (lib_suffix_mapping !! sys_platform)).

(** The error [_load_library] gives up with. *)
Definition loading_error {rt : Runtime} (lib_name : string) : CredxError :=
  mkCredxError WRAPPER
    (PStr (str_of ("Error loading library: " +:+ lib_name))) PNone.

(** [rt] on another platform, with another loader, or with entry points
    that store [outs] through their [byref] arguments. *)
Definition on_platform (rt : Runtime) (platform : string) : Runtime := {|
  Host := @Host rt;
  sys_platform := platform;
  module_dir := @module_dir rt;
  path_join := @path_join rt;
  dlopen := @dlopen rt;
  find_library := @find_library rt;
  dlsym := @dlsym rt;
  native_call := @native_call rt;
  json_loads := @json_loads rt;
  json_dumps := @json_dumps rt;
  CredxErrorCode_members := @CredxErrorCode_members rt;
  WRAPPER := @WRAPPER rt;
|}.

Definition with_loader (rt : Runtime) (opens : string → bool)
    (found : option string) : Runtime := {|
  Host := @Host rt;
  sys_platform := @sys_platform rt;
  module_dir := @module_dir rt;
  path_join := @path_join rt;
  dlopen := λ p h, (if opens p then Some 2 else None, h);
  find_library := λ _, found;
  dlsym := @dlsym rt;
  native_call := @native_call rt;
  json_loads := @json_loads rt;
  json_dumps := @json_dumps rt;
  CredxErrorCode_members := @CredxErrorCode_members rt;
  WRAPPER := @WRAPPER rt;
|}.

Definition with_outs (rt : Runtime) (outs : list pyobj) : Runtime := {|
  Host := @Host rt;
  sys_platform := @sys_platform rt;
  module_dir := @module_dir rt;
  path_join := @path_join rt;
  dlopen := @dlopen rt;
  find_library := @find_library rt;
  dlsym := @dlsym rt;
  native_call := λ lib fn args h,
    if String.eqb fn "credx_string_free" then @native_call rt lib fn args h
    else ((0, outs), (@native_call rt lib fn args h).2);
  json_loads := @json_loads rt;
  json_dumps := @json_dumps rt;
  CredxErrorCode_members := @CredxErrorCode_members rt;
  WRAPPER := @WRAPPER rt;
|}.

Definition system_path : string := "/usr/lib/libindy_credx.so".

Definition rt_darwin : Runtime := on_platform rt_error "darwin".
Definition rt_not_installed : Runtime := with_loader rt_error (λ _, false) None.
Definition rt_system : Runtime :=
  with_loader rt_error (String.eqb system_path) (Some system_path).
Definition rt_logger_fails : Runtime :=
  sample (0, [lib_string (Some doc_error)]) ["credx_set_default_logger"].
Definition rt_json : Runtime :=
  with_outs rt_null [lib_string (Some doc_no_message)].
Definition rt_json_null : Runtime := with_outs rt_null [lib_string None].
Definition rt_handle : Runtime := with_outs rt_null [ObjectHandle 42].

Definition without_symbol (rt : Runtime) (missing : string) : Runtime := {|
  Host := @Host rt;
  sys_platform := @sys_platform rt;
  module_dir := @module_dir rt;
  path_join := @path_join rt;
  dlopen := @dlopen rt;
  find_library := @find_library rt;
  dlsym := λ lib fn, negb (String.eqb fn missing) && @dlsym rt lib fn;
  native_call := @native_call rt;
  json_loads := @json_loads rt;
  json_dumps := @json_dumps rt;
  CredxErrorCode_members := @CredxErrorCode_members rt;
  WRAPPER := @WRAPPER rt;
|}.

(** A decoder that also refuses what is not UTF-8 (with the exception
    [json.loads] has for it) and knows the document [5]. *)
Definition with_strict_loads (rt : Runtime) : Runtime := {|
  Host := @Host rt;
  sys_platform := @sys_platform rt;
  module_dir := @module_dir rt;
  path_join := @path_join rt;
  dlopen := @dlopen rt;
  find_library := @find_library rt;
  dlsym := @dlsym rt;
  native_call := @native_call rt;
  json_loads := λ b,
    match Utf8.decode b with
    | None => Raise UnicodeDecodeError
    | Some s => if bool_decide (s = str_of "5") then Ok (PInt 5)
                else @json_loads rt b
    end;
  json_dumps := @json_dumps rt;
  CredxErrorCode_members := @CredxErrorCode_members rt;
  WRAPPER := @WRAPPER rt;
|}.

Definition rt_no_version : Runtime := without_symbol rt_error "credx_version".
Definition rt_garbage : Runtime :=
  sample (0, [lib_string (Some (str_of "oops"))]) [].
Definition rt_not_utf8 : Runtime :=
  with_strict_loads (sample (0, [lib_string (Some [0xFF])]) []).
Definition rt_five : Runtime :=
  with_strict_loads (sample (0, [lib_string (Some (str_of "5"))]) []).

(** A text with code points of one to four octets, and its UTF-8 octets. *)
Definition sample_text : pystr := [0x64; 0xE9; 0x20AC; 0x1F600].
Definition sample_octets : bytes :=
  [0x64; 0xC3; 0xA9; 0xE2; 0x82; 0xAC; 0xF0; 0x9F; 0x98; 0x80].

(** The condition [msg and "message" in msg and "code" in msg] is false:
    [msg] is falsy, or [in] is defined on [msg] (an object, an array, a
    string) and does not find both keys. *)
Definition fields_missing (msg : pyvalue) : Prop :=
  truthy msg = false ∨
  match msg with
  | PDict d => d !! str_of "message" = None ∨ d !! str_of "code" = None
  | PList l =>
      PStr (str_of "message") ∉ l ∨ PStr (str_of "code") ∉ l
  | PStr s =>
      is_substring (str_of "message") s = false
      ∨ is_substring (str_of "code") s = false
  | _ => False
  end.

(** The shared objects opened so far. *)
Fixpoint open_calls (tr : list event) : nat :=
  match tr with
  | [] => 0%nat
  | EvOpen _ :: tr' => S (open_calls tr')
  | _ :: tr' => open_calls tr'
  end.

(** [rt] with a decoder that also knows the document [doc]. *)
Definition with_document (rt : Runtime) (doc : bytes) (v : pyvalue)
    : Runtime := {|
  Host := @Host rt;
  sys_platform := @sys_platform rt;
  module_dir := @module_dir rt;
  path_join := @path_join rt;
  dlopen := @dlopen rt;
  find_library := @find_library rt;
  dlsym := @dlsym rt;
  native_call := @native_call rt;
  json_loads := λ b, if bool_decide (b = doc) then Ok v else @json_loads rt b;
  json_dumps := @json_dumps rt;
  CredxErrorCode_members := @CredxErrorCode_members rt;
  WRAPPER := @WRAPPER rt;
|}.

(** [["message", "code"]] and ["message code"], as JSON documents, then
    [["message"]], and native libraries that report them, or [true], as
    the error. *)
Definition doc_list : bytes :=
  str_of "[" ++ quoted "message" ++ str_of ", " ++ quoted "code" ++ str_of "]".
Definition doc_string : bytes := quoted "message code".
Definition doc_array : bytes := str_of "[" ++ quoted "message" ++ str_of "]".

Definition rt_list : Runtime :=
  with_document (sample (0, [lib_string (Some doc_list)]) []) doc_list
    (PList [PStr (str_of "message"); PStr (str_of "code")]).
Definition rt_string : Runtime :=
  with_document (sample (0, [lib_string (Some doc_string)]) []) doc_string
    (PStr (str_of "message code")).
Definition rt_array : Runtime :=
  with_document (sample (0, [lib_string (Some doc_array)]) []) doc_array
    (PList [PStr (str_of "message")]).
Definition rt_true : Runtime :=
  with_document (sample (0, [lib_string (Some (str_of "true"))]) [])
    (str_of "true") (PBool true).
Definition rt_failing_unknown_code : Runtime :=
  sample (0, [lib_string (Some doc_unknown_code)]) ["credx_create_schema"].

(** * Properties *)

(** ** The codec *)

Ltac euclid := Z.div_mod_to_equations; lia.

Ltac decide_test :=
  match goal with
  | |- context [?a <? ?b] =>
      first [ rewrite (proj2 (Z.ltb_lt a b)) by euclid
            | rewrite (proj2 (Z.ltb_ge a b)) by euclid ]
  | |- context [?a <=? ?b] =>
      first [ rewrite (proj2 (Z.leb_le a b)) by euclid
            | rewrite (proj2 (Z.leb_gt a b)) by euclid ]
  end.

Ltac reflect_tests :=
  repeat match goal with
         | H : (_ <? _) = _ |- _ =>
             first [apply Z.ltb_lt in H | apply Z.ltb_ge in H]
         | H : (_ <=? _) = _ |- _ =>
             first [apply Z.leb_le in H | apply Z.leb_gt in H]
         | H : (_ && _) = false |- _ => apply andb_false_iff in H; destruct H
         | H : (_ && _) = true |- _ => apply andb_true_iff in H; destruct H
         end.

(** Decoding the octets of one code point gives the code point back and
    goes on with the rest. *)
Lemma decode_encode_char c b r :
  Utf8.encode_char c = Some b →
  Utf8.decode (b ++ r) = cons c <$> Utf8.decode r.
Proof.
  unfold Utf8.encode_char, Utf8.is_surrogate.
  repeat case_match; intros; simplify_eq; cbn [app Utf8.decode]; cbv zeta.
  all: unfold Utf8.is_cont, Utf8.is_surrogate; reflect_tests.
  - repeat decide_test. done.
  - replace ((0xC0 + c / 64 - 0xC0) * 64 + (0x80 + c mod 64 - 0x80))
      with c by euclid.
    repeat decide_test. done.
  - replace ((0xE0 + c / 4096 - 0xE0) * 4096
             + (0x80 + (c / 64) mod 64 - 0x80) * 64
             + (0x80 + c mod 64 - 0x80)) with c by euclid.
    repeat decide_test. done.
  - replace ((0xE0 + c / 4096 - 0xE0) * 4096
             + (0x80 + (c / 64) mod 64 - 0x80) * 64
             + (0x80 + c mod 64 - 0x80)) with c by euclid.
    repeat decide_test. done.
  - replace ((0xF0 + c / 262144 - 0xF0) * 262144
             + (0x80 + (c / 4096) mod 64 - 0x80) * 4096
             + (0x80 + (c / 64) mod 64 - 0x80) * 64
             + (0x80 + c mod 64 - 0x80)) with c by euclid.
    repeat decide_test. done.
Qed.

Lemma decode_encode s b : Utf8.encode s = Some b → Utf8.decode b = Some s.
Proof.
  revert b. induction s as [|c s IH]; intros b; cbn [Utf8.encode].
  - by intros [= <-].
  - destruct (Utf8.encode_char c) as [bc|] eqn:Hc; [|done].
    destruct (Utf8.encode s) as [bs|] eqn:Hs; [|done].
    intros [= <-]. by rewrite (decode_encode_char c bc bs Hc), (IH bs eq_refl).
Qed.

Lemma encode_char_scalar c : Utf8.scalar c ↔ is_Some (Utf8.encode_char c).
Proof.
  unfold Utf8.scalar, Utf8.encode_char, Utf8.is_surrogate. split.
  - intros Hc. repeat case_match; try done; reflect_tests; lia.
  - intros [b Hb]. repeat case_match; try done; reflect_tests; lia.
Qed.

(** The strings that can be encoded are those without surrogates. *)
Lemma encode_scalars s : Forall Utf8.scalar s ↔ is_Some (Utf8.encode s).
Proof.
  induction s as [|c s IH]; cbn [Utf8.encode]; [by split|].
  rewrite Forall_cons, IH, encode_char_scalar.
  destruct (Utf8.encode_char c), (Utf8.encode s); split;
    try (by intros [[? [=]] _]); try (by intros [_ [? [=]]]);
    try (by intros [? [=]]); eauto.
Qed.

(** When a string has no U+0000, the native side reads all of its
    octets. *)
Lemma c_string_no_nul b : Forall (λ x, x ≠ 0) b → c_string b = b.
Proof.
  induction 1 as [|x b Hx _ IH]; [done|]. cbn [c_string].
  by rewrite (proj2 (Z.eqb_neq x 0) Hx), IH.
Qed.


(** ** The bindings *)

Section Facts.
Context {rt : Runtime}.

Lemma bind_unfold {A B} (m : M A) (k : A → M B) w :
  (m ≫= k) w =
  match m w with
  | Some (Ok a, w') => k a w'
  | Some (Raise e, w') => Some (Raise e, w')
  | None => None
  end.
Proof. reflexivity. Qed.

Lemma bind_Ok {A B} (m : M A) (k : A → M B) w a w' :
  m w = Some (Ok a, w') → (m ≫= k) w = k a w'.
Proof. intros Hm. by rewrite bind_unfold, Hm. Qed.

Lemma bind_Raise {A B} (m : M A) (k : A → M B) w e w' :
  m w = Some (Raise e, w') → (m ≫= k) w = Some (Raise e, w').
Proof. intros Hm. by rewrite bind_unfold, Hm. Qed.

Lemma mret_unfold {A} (a : A) w : (mret a : M A) w = Some (Ok a, w).
Proof. reflexivity. Qed.

(** *** [LIB] is assigned once *)

Lemma stable_bind {A B} (m : M A) (k : A → M B) :
  stable m → (∀ a, stable (k a)) → stable (m ≫= k).
Proof.
  intros Hm Hk w r w' l HL. rewrite bind_unfold.
  destruct (m w) as [[[a|e] w1]|] eqn:E; [|intros [= <- <-]|done].
  - apply (Hk a). eauto.
  - eauto.
Qed.

Lemma stable_keeps {A} (m : M A) :
  (∀ w r w', m w = Some (r, w') → LIB w' = LIB w) → stable m.
Proof. intros Hm w r w' l HL Hw. by rewrite (Hm _ _ _ Hw). Qed.

Lemma stable_ret {A} (a : A) : stable (mret a : M A).
Proof. apply stable_keeps. by intros w r w' [= <- <-]. Qed.
Lemma stable_raise {A} e : stable (raise e : M A).
Proof. apply stable_keeps. by intros w r w' [= <- <-]. Qed.
Lemma stable_lift {A} (x : result A) : stable (lift x).
Proof. apply stable_keeps. by intros w r w' [= <- <-]. Qed.
Lemma stable_emit e : stable (emit e).
Proof. apply stable_keeps. by intros w r w' [= <- <-]. Qed.
Lemma stable_LOGGER a b : stable (LOGGER a b).
Proof. apply stable_emit. Qed.
Lemma stable_alloc o : stable (alloc o).
Proof. apply stable_keeps. by intros w r w' [= <- <-]. Qed.
Lemma stable_dealloc r : stable (dealloc r).
Proof. apply stable_keeps. by intros w r' w' [= <- <-]. Qed.
Lemma stable_value r : stable (value r).
Proof. apply stable_keeps. by intros w r' w' [= <- <-]. Qed.
Lemma stable_get_LIB : stable get_LIB.
Proof. apply stable_keeps. by intros w r' w' [= <- <-]. Qed.
Lemma stable_getattr l fn : stable (getattr l fn).
Proof. unfold getattr. case_match; [apply stable_ret | apply stable_raise]. Qed.
Lemma stable_call l fn args : stable (call l fn args).
Proof.
  apply stable_keeps. intros w r w'. unfold call.
  destruct (native_call _ _ _ _) as [[s o] hs]. by intros [= <- <-].
Qed.
Lemma stable_CDLL_open p : stable (CDLL_open p).
Proof.
  apply stable_keeps. intros w r w'. unfold CDLL_open.
  destruct (dlopen _ _) as [[z|] hs]; by intros [= <- <-].
Qed.
Lemma stable_try_except {A} (m : M A) h :
  stable m → (∀ e k, h e = Some k → stable k) → stable (try_except m h).
Proof.
  intros Hm Hh w r w' l HL. unfold try_except.
  destruct (m w) as [[[a|e] w1]|] eqn:E; [intros [= <- <-]; eauto| |done].
  destruct (h e) as [k|] eqn:Ek; [|intros [= <- <-]; eauto].
  apply (Hh _ _ Ek). eauto.
Qed.
Lemma stable_finalize (m : M unit) : stable m → stable (finalize m).
Proof.
  intros Hm w r w' l HL. unfold finalize.
  destruct (m w) as [[[a|e] w1]|] eqn:E; intros [= <- <-]; eauto.
Qed.

Ltac msimpl :=
  cbv [mbind M_bind bind mret M_ret ret raise lift getattr try_except
       finalize value get_LIB LOGGER emit dealloc].

Ltac stable_tac :=
  repeat first
    [ apply stable_ret | apply stable_raise | apply stable_lift
    | apply stable_emit | apply stable_LOGGER | apply stable_alloc
    | apply stable_dealloc | apply stable_value | apply stable_get_LIB
    | apply stable_getattr | apply stable_call | apply stable_CDLL_open
    | apply stable_finalize
    | apply stable_try_except; [|intros [] ? ?; simplify_eq]
    | apply stable_bind; [|intros ?]
    | assumption
    | match goal with |- stable (match ?x with _ => _ end) => destruct x end
    | match goal with |- stable (if ?x then _ else _) => destruct x end ].

Lemma stable_drop_lib_string_with gl r :
  stable gl → stable (drop_lib_string_with gl r).
Proof. intros. unfold drop_lib_string_with, lib_string__del__with. stable_tac. Qed.

Lemma stable_get_current_error_with gl expect :
  stable gl → stable (get_current_error_with gl expect).
Proof.
  intros. unfold get_current_error_with. stable_tac.
Qed.

Lemma stable_do_call_with gl fn args :
  stable gl → stable (do_call_with gl fn args).
Proof.
  intros. unfold do_call_with. stable_tac.
  all: by apply stable_get_current_error_with.
Qed.

Lemma get_library_n_loaded n w l :
  LIB w = Some l → get_library_n (S n) w = Some (Ok l, w).
Proof.
  intros HL. cbn [get_library_n]. rewrite bind_unfold. unfold get_LIB.
  by rewrite HL.
Qed.

Lemma stable_get_library_n n : stable (get_library_n n).
Proof.
  intros w r w' l HL. destruct n; [done|].
  rewrite (get_library_n_loaded _ _ _ HL). by intros [= <- <-].
Qed.

Lemma get_library_n_LIB n w l w' :
  get_library_n n w = Some (Ok l, w') → LIB w' = Some l.
Proof.
  destruct n as [|n]; [done|]. cbn [get_library_n].
  rewrite bind_unfold. unfold get_LIB at 1.
  destruct (LIB w) as [l0|] eqn:HL.
  - by intros [= <- <-].
  - rewrite bind_unfold.
    destruct (_load_library _ w) as [[[l1|e] w1]|]; [|done..].
    rewrite bind_unfold. unfold set_LIB at 1. rewrite bind_unfold.
    destruct (do_call_with _ _ _ _) as [[[[]|e] w2]|] eqn:E; [|done..].
    intros [= <- <-].
    eapply (stable_do_call_with (get_library_n n)); [apply stable_get_library_n| |exact E].
    done.
Qed.


Lemma get_library_LIB w l w' :
  get_library w = Some (Ok l, w') → LIB w' = Some l.
Proof. apply get_library_n_LIB. Qed.

Lemma get_library_loaded w l :
  LIB w = Some l → get_library w = Some (Ok l, w).
Proof. apply get_library_n_loaded. Qed.

Lemma call_LIB l fn args w s w' :
  call l fn args w = Some (Ok s, w') → LIB w' = LIB w.
Proof.
  unfold call. destruct (native_call _ _ _ _) as [[s' o] hs]. by intros [= <- <-].
Qed.

Lemma alloc_LIB o w r w' :
  alloc o w = Some (Ok r, w') → LIB w' = LIB w.
Proof. by intros [= <- <-]. Qed.

Lemma call_returns l fn args w :
  ∃ s w', call l fn args w = Some (Ok s, w').
Proof. unfold call. destruct (native_call _ _ _ _) as [[s o] hs]. eauto. Qed.

Lemma drop_lib_string_returns r w l :
  LIB w = Some l →
  ∃ w', drop_lib_string r w = Some (Ok tt, w').
Proof.
  intros HL. unfold drop_lib_string, drop_lib_string_with, lib_string__del__with.
  msimpl. rewrite (get_library_loaded _ _ HL).
  destruct (dlsym l _); msimpl; [|eauto].
  destruct (call_returns l "credx_string_free" [AObj r] w) as (s & w1 & ->).
  eauto.
Qed.

(** C2, as amended: when the native [credx_get_current_error] returns a
    status that is not zero, [get_current_error] does not raise and
    returns the [WRAPPER] error "Unknown error", whatever [expect] is. *)
Theorem get_current_error_fetch_failed expect w r wa lib w1 status w2 :
  alloc (lib_string None) w = Some (Ok r, wa) →
  get_library wa = Some (Ok lib, w1) →
  dlsym lib "credx_get_current_error" = true →
  call lib "credx_get_current_error" [AByref r] w1 = Some (Ok status, w2) →
  status ≠ 0 →
  ∃ w', get_current_error expect w = Some (Ok (Some unknown_error), w').
Proof.
  intros Ha Hg Hs Hc Hne.
  assert (LIB w2 = Some lib) as HL.
  { rewrite (call_LIB _ _ _ _ _ _ Hc). by apply get_library_LIB in Hg. }
  destruct (drop_lib_string_returns r w2 lib HL) as [w' Hd].
  exists w'. revert Hd.
  unfold get_current_error, get_current_error_with, drop_lib_string.
  msimpl. rewrite Ha, Hg, Hs, Hc, (proj2 (Z.eqb_neq status 0) Hne).
  by intros ->.
Qed.


(** *** Computations that return once the library is loaded *)

Lemma total_bind {A B} (m : M A) (k : A → M B) Q :
  total m (λ a, total (k a) Q) → total (m ≫= k) Q.
Proof.
  intros Hm w l HL. destruct (Hm w l HL) as (r & w1 & E & HL1 & Ht & Hr).
  rewrite bind_unfold, E. destruct r as [a|e].
  - destruct (Hr a eq_refl w1 l HL1) as (r' & w2 & E' & HL2 & Ht' & Hr').
    exists r', w2. split_and!; try done. by etrans.
  - exists (Raise e), w1. by split_and!.
Qed.

Lemma total_ret {A} (a : A) (Q : A → Prop) : Q a → total (ret a) Q.
Proof. intros HQ w l HL. exists (Ok a), w. split_and!; try done. by intros ? [= <-]. Qed.

Lemma total_raise {A} e (Q : A → Prop) : total (raise e) Q.
Proof. intros w l HL. exists (Raise e), w. by split_and!. Qed.

Lemma total_lift {A} (x : result A) (Q : A → Prop) :
  (∀ a, x = Ok a → Q a) → total (lift x) Q.
Proof. intros HQ w l HL. exists x, w. by split_and!. Qed.

Lemma total_alloc o (Q : nat → Prop) : (∀ r, Q r) → total (alloc o) Q.
Proof. intros HQ w l HL. eexists _, _. split; [reflexivity|]. by split_and!. Qed.

Lemma total_dealloc r (Q : unit → Prop) : Q tt → total (dealloc r) Q.
Proof.
  intros HQ w l HL. eexists _, _. split; [reflexivity|].
  split_and!; try done. by intros [] _.
Qed.

Lemma total_emit e (Q : unit → Prop) : Q tt → total (emit e) Q.
Proof.
  intros HQ w l HL. eexists _, _. split; [reflexivity|].
  split_and!; try done; [by apply prefix_app_r|by intros [] _].
Qed.

Lemma total_value r (Q : option (list Z) → Prop) : (∀ v, Q v) → total (value r) Q.
Proof. intros HQ w l HL. eexists _, _. split; [reflexivity|]. by split_and!. Qed.

Lemma total_getattr lib fn (Q : unit → Prop) : Q tt → total (getattr lib fn) Q.
Proof. intros HQ. unfold getattr. case_match; [by apply total_ret|apply total_raise]. Qed.

Lemma total_call lib fn args (Q : Z → Prop) : (∀ s, Q s) → total (call lib fn args) Q.
Proof.
  intros HQ w l HL. unfold call. destruct (native_call _ _ _ _) as [[s o] hs].
  eexists _, _. split; [reflexivity|]. split_and!; try done. by apply prefix_app_r.
Qed.

Lemma total_try_except {A} (m : M A) h (Q : A → Prop) :
  total m Q → (∀ e k, h e = Some k → total k Q) → total (try_except m h) Q.
Proof.
  intros Hm Hh w l HL. destruct (Hm w l HL) as (r & w1 & E & HL1 & Ht & Hr).
  unfold try_except. rewrite E. destruct r as [a|e]; [by eauto 10|].
  destruct (h e) as [k|] eqn:Ek; [|by eauto 10].
  destruct (Hh e k Ek w1 l HL1) as (r' & w2 & E' & HL2 & Ht' & Hr').
  exists r', w2. split_and!; try done. by etrans.
Qed.

Lemma total_finalize (m : M unit) (Q : unit → Prop) :
  total m (λ _, True) → Q tt → total (finalize m) Q.
Proof.
  intros Hm HQ w l HL. destruct (Hm w l HL) as (r & w1 & E & HL1 & Ht & Hr).
  unfold finalize. rewrite E.
  destruct r as [[]|e]; eexists _, _; (split; [reflexivity|]);
    split_and!; try done; by intros [] _.
Qed.

Lemma total_get_library (Q : CDLL → Prop) : (∀ l, Q l) → total get_library Q.
Proof.
  intros HQ w l HL. exists (Ok l), w. rewrite (get_library_loaded _ _ HL).
  by split_and!.
Qed.

Lemma total_weaken {A} (m : M A) (P Q : A → Prop) :
  total m P → (∀ a, P a → Q a) → total m Q.
Proof.
  intros Hm HPQ w l HL. destruct (Hm w l HL) as (r & w1 & E & HL1 & Ht & Hr).
  exists r, w1. split_and!; eauto.
Qed.

Ltac total_prim :=
  lazymatch goal with
  | |- total (_ ≫= _) _ => apply total_bind
  | |- total (mret _) _ => apply total_ret
  | |- total (ret _) _ => apply total_ret
  | |- total (raise _) _ => apply total_raise
  | |- total get_library _ => apply total_get_library; intros ?
  | |- total (getattr _ _) _ => apply total_getattr
  | |- total (call _ _ _) _ => apply total_call; intros ?
  | |- total (alloc _) _ => apply total_alloc; intros ?
  | |- total (dealloc _) _ => apply total_dealloc
  | |- total (emit _) _ => apply total_emit
  | |- total (LOGGER _ _) _ => apply total_emit
  | |- total (value _) _ => apply total_value; intros ?
  | |- total (lift _) _ => apply total_lift; intros ? ?
  | |- total (finalize _) _ => apply total_finalize
  | |- total (try_except _ _) _ =>
      apply total_try_except; [|intros [] ? ?; simplify_eq]
  | |- total (match ?x with _ => _ end) _ => destruct x eqn:?
  end.

Lemma total_drop_lib_string r (Q : unit → Prop) :
  Q tt → total (drop_lib_string r) Q.
Proof.
  intros HQ. unfold drop_lib_string, drop_lib_string_with, lib_string__del__with.
  repeat total_prim; done.
Qed.

Ltac total_step :=
  lazymatch goal with
  | |- total (drop_lib_string_with get_library _) _ =>
      apply total_drop_lib_string
  | |- _ => total_prim
  end.

Lemma total_get_current_error expect :
  total (get_current_error expect) (λ r, expect = true → is_Some r).
Proof.
  unfold get_current_error, get_current_error_with.
  repeat total_step; intros; subst; simpl in *; done.
Qed.

Lemma total_do_call fn args : total (do_call fn args) (λ _, True).
Proof.
  unfold do_call, do_call_with. repeat total_step; try done.
  eapply total_weaken; [apply total_get_current_error|].
  intros [e|] He; repeat total_step.
Qed.

(** *** The error channel *)

Ltac fetch Ha Hg Hs Hc :=
  unfold get_current_error, get_current_error_with; msimpl;
  rewrite Ha, Hg, Hs, Hc; cbn [Z.eqb].

(** C3, at the input where the code fails: the native fetch succeeds
    and leaves the output string absent (NULL); [json.loads(None)]
    raises [TypeError], which [get_current_error] does not catch. *)
Theorem get_current_error_null expect w r wa lib w1 w2 :
  alloc (lib_string None) w = Some (Ok r, wa) →
  get_library wa = Some (Ok lib, w1) →
  dlsym lib "credx_get_current_error" = true →
  call lib "credx_get_current_error" [AByref r] w1 = Some (Ok 0, w2) →
  string_value (heap w2) r = None →
  get_current_error expect w = Some (Raise TypeError, w2).
Proof.
  intros Ha Hg Hs Hc Hv. fetch Ha Hg Hs Hc. by rewrite Hv.
Qed.

Lemma has_message_and_code_dict d :
  has_message_and_code (PDict d) =
  Ok (bool_decide (is_Some (d !! str_of "message"))
      && bool_decide (is_Some (d !! str_of "code"))).
Proof.
  unfold has_message_and_code, truthy, py_contains.
  case_bool_decide as Hd; cbn [negb].
  - subst d. rewrite !lookup_empty. by rewrite bool_decide_eq_false_2 by by intros [? [=]].
  - by destruct (bool_decide (is_Some (d !! str_of "message"))).
Qed.

(** C9: when the native fetch succeeds and the payload is an object
    with ["message"] and ["code"] whose integer code is not the value of
    a member of [CredxErrorCode], the conversion raises [ValueError] and
    [get_current_error] lets it through, for both values of [expect]. *)
Theorem get_current_error_unknown_code expect w r wa lib w1 w2 b d m c :
  alloc (lib_string None) w = Some (Ok r, wa) →
  get_library wa = Some (Ok lib, w1) →
  dlsym lib "credx_get_current_error" = true →
  call lib "credx_get_current_error" [AByref r] w1 = Some (Ok 0, w2) →
  string_value (heap w2) r = Some b →
  json_loads b = Ok (PDict d) →
  d !! str_of "message" = Some m →
  d !! str_of "code" = Some (PInt c) →
  c ∉ CredxErrorCode_members →
  get_current_error expect w = Some (Raise ValueError, w2).
Proof.
  intros Ha Hg Hs Hc Hv Hj Hm Hcode Hc'.
  fetch Ha Hg Hs Hc. rewrite Hv. cbn [loads]. rewrite Hj.
  rewrite has_message_and_code_dict, Hm, Hcode.
  rewrite !bool_decide_eq_true_2 by eauto. cbn [andb].
  unfold error_of_payload, py_getitem. rewrite Hcode.
  unfold CredxErrorCode. cbn [as_int]. by rewrite bool_decide_eq_false_2.
Qed.

(** The regular case: the payload carries the code of a member. *)
Theorem get_current_error_structured expect w r wa lib w1 w2 b d m c :
  alloc (lib_string None) w = Some (Ok r, wa) →
  get_library wa = Some (Ok lib, w1) →
  dlsym lib "credx_get_current_error" = true →
  call lib "credx_get_current_error" [AByref r] w1 = Some (Ok 0, w2) →
  string_value (heap w2) r = Some b →
  json_loads b = Ok (PDict d) →
  d !! str_of "message" = Some m →
  d !! str_of "code" = Some (PInt c) →
  c ∈ CredxErrorCode_members →
  ∃ w', get_current_error expect w =
        Some (Ok (Some (mkCredxError c m (default PNone (d !! str_of "extra")))), w').
Proof.
  intros Ha Hg Hs Hc Hv Hj Hm Hcode Hc'.
  assert (LIB w2 = Some lib) as HL.
  { rewrite (call_LIB _ _ _ _ _ _ Hc). by apply get_library_LIB in Hg. }
  destruct (drop_lib_string_returns r w2 lib HL) as [w' Hw'].
  exists w'. revert Hw'. unfold drop_lib_string.
  fetch Ha Hg Hs Hc. rewrite Hv. cbn [loads]. rewrite Hj.
  rewrite has_message_and_code_dict, Hm, Hcode.
  rewrite !bool_decide_eq_true_2 by eauto. cbn [andb].
  unfold error_of_payload, py_getitem, py_get. rewrite Hcode, Hm.
  unfold CredxErrorCode. cbn [as_int]. rewrite bool_decide_eq_true_2 by done.
  by intros ->.
Qed.

(** The empty output string: the decoder refuses it, the refusal is
    logged, and the result is that of a payload without fields. *)
Theorem get_current_error_empty expect w r wa lib w1 w2 :
  alloc (lib_string None) w = Some (Ok r, wa) →
  get_library wa = Some (Ok lib, w1) →
  dlsym lib "credx_get_current_error" = true →
  call lib "credx_get_current_error" [AByref r] w1 = Some (Ok 0, w2) →
  string_value (heap w2) r = Some [] →
  json_loads [] = Raise JSONDecodeError →
  ∃ w', get_current_error expect w =
        Some (Ok (if expect then Some unknown_error else None), w').
Proof.
  intros Ha Hg Hs Hc Hv Hj.
  assert (LIB w2 = Some lib) as HL.
  { rewrite (call_LIB _ _ _ _ _ _ Hc). by apply get_library_LIB in Hg. }
  set (w3 := mkWorld (LIB w2) (heap w2) (next_ref w2) (host w2)
               (trace w2 ++ [EvLog "warning" "JSON decode error for credx_get_current_error"])).
  destruct (drop_lib_string_returns r w3 lib HL) as [w' Hw'].
  exists w'. revert Hw'. unfold drop_lib_string.
  fetch Ha Hg Hs Hc. rewrite Hv. cbn [loads]. rewrite Hj.
  cbn [has_message_and_code truthy]. fold w3.
  destruct expect; cbn [negb]; by intros ->.
Qed.

(** A payload that is a bare number other than zero has no fields to
    look for: the membership test itself raises. *)
Lemma get_current_error_number expect w r wa lib w1 w2 b z :
  alloc (lib_string None) w = Some (Ok r, wa) →
  get_library wa = Some (Ok lib, w1) →
  dlsym lib "credx_get_current_error" = true →
  call lib "credx_get_current_error" [AByref r] w1 = Some (Ok 0, w2) →
  string_value (heap w2) r = Some b →
  json_loads b = Ok (PInt z) →
  z ≠ 0 →
  get_current_error expect w = Some (Raise TypeError, w2).
Proof.
  intros Ha Hg Hs Hc Hv Hj Hz.
  fetch Ha Hg Hs Hc. rewrite Hv. cbn [loads]. rewrite Hj.
  unfold has_message_and_code, truthy.
  by rewrite (proj2 (Z.eqb_neq z 0) Hz).
Qed.

(** *** The call dispatcher *)

(** C6, as amended: [do_call] returns without raising when the entry
    point returns zero.  When it returns anything else, [do_call] asks
    [get_current_error(True)] and does not return: when the lookup
    returns, what it returns is a [CredxError] (never [None]) and
    [do_call] raises it; when the lookup itself raises, this exception
    reaches the caller in place of a [CredxError]. *)
Theorem do_call_status fn_name args w lib w1 status w2 :
  get_library w = Some (Ok lib, w1) →
  dlsym lib fn_name = true →
  call lib fn_name args w1 = Some (Ok status, w2) →
  (status = 0 → do_call fn_name args w = Some (Ok tt, w2)) ∧
  (status ≠ 0 →
     ∃ r w3, get_current_error true w2 = Some (r, w3) ∧
       match r with
       | Ok (Some e) =>
           do_call fn_name args w = Some (Raise (CredxErrorExc e), w3)
       | Ok None => False
       | Raise x => do_call fn_name args w = Some (Raise x, w3)
       end).
Proof.
  intros Hg Hs Hc. split.
  - intros ->. unfold do_call, do_call_with. msimpl. by rewrite Hg, Hs, Hc.
  - intros Hne.
    assert (LIB w2 = Some lib) as HL.
    { rewrite (call_LIB _ _ _ _ _ _ Hc). by apply get_library_LIB in Hg. }
    destruct (total_get_current_error true w2 lib HL) as (r & w3 & E & _ & _ & Hr).
    exists r, w3. split; [done|].
    unfold do_call, do_call_with. msimpl.
    rewrite Hg, Hs, Hc, (proj2 (Z.eqb_neq status 0) Hne).
    fold (get_current_error true). rewrite E.
    destruct r as [[e|]|x]; try done.
    by destruct (Hr None eq_refl eq_refl).
Qed.

(** *** Lifetimes *)

Lemma string_free_calls_app tr1 tr2 :
  string_free_calls (tr1 ++ tr2) = (string_free_calls tr1 + string_free_calls tr2)%nat.
Proof.
  induction tr1 as [|e tr1 IH]; [done|]. destruct e; cbn; try done.
  case_match; cbn; by rewrite IH.
Qed.

Lemma object_free_calls_app v tr1 tr2 :
  object_free_calls v (tr1 ++ tr2)
  = (object_free_calls v tr1 + object_free_calls v tr2)%nat.
Proof.
  induction tr1 as [|e tr1 IH]; [done|].
  destruct e as [| |fn [|[] [|]]|]; cbn; try done.
  case_match; cbn; by rewrite IH.
Qed.

(** C4, as amended: when the lifetime of a [lib_string] ends (library
    loaded, entry point present), [credx_string_free] is called exactly
    once, with the wrapped reference, null or not. *)
Theorem drop_lib_string_frees_once r p w lib :
  LIB w = Some lib →
  dlsym lib "credx_string_free" = true →
  heap w !! r = Some (lib_string p) →
  ∃ w', drop_lib_string r w = Some (Ok tt, w')
        ∧ trace w' = trace w ++ [EvCall "credx_string_free" [CPtr p]]
        ∧ string_free_calls (trace w') = S (string_free_calls (trace w))
        ∧ heap w' !! r = None.
Proof.
  intros HL Hs Hr.
  unfold drop_lib_string, drop_lib_string_with, lib_string__del__with.
  msimpl. rewrite (get_library_loaded _ _ HL), Hs.
  unfold call. cbn [fmap list_fmap marshal]. rewrite Hr.
  destruct (native_call _ _ _ _) as [[s o] hs].
  eexists. split; [reflexivity|]. cbn [trace heap].
  split_and!; [done| |].
  - rewrite string_free_calls_app. cbn. lia.
  - cbn. apply lookup_delete_eq.
Qed.

Lemma drop_ObjectHandle_loaded r w lib :
  LIB w = Some lib →
  dlsym lib "credx_object_free" = true →
  ∃ w', drop_ObjectHandle r w = Some (Ok tt, w')
        ∧ LIB w' = Some lib
        ∧ heap w' = delete r (heap w)
        ∧ trace w' = trace w ++ [EvCall "credx_object_free" [marshal (heap w) (AObj r)]].
Proof.
  intros HL Hs.
  unfold drop_ObjectHandle, ObjectHandle__del__, object_free.
  msimpl. rewrite (get_library_loaded _ _ HL), Hs.
  unfold call. cbn [fmap list_fmap].
  destruct (native_call _ _ _ _) as [[s o] hs].
  eexists. split; [reflexivity|]. cbn [trace heap LIB].
  split_and!; try done.
  unfold marshal. by destruct (heap w !! r) as [[]|].
Qed.

Lemma drop_ObjectHandles_calls rs : ∀ w lib (h0 : gmap nat pyobj),
  LIB w = Some lib →
  dlsym lib "credx_object_free" = true →
  NoDup rs →
  (∀ r, r ∈ rs → ∃ x, h0 !! r = Some (ObjectHandle x) ∧ heap w !! r = h0 !! r) →
  ∃ w', drop_ObjectHandles rs w = Some (Ok tt, w') ∧
    ∀ v, object_free_calls v (trace w')
         = (object_free_calls v (trace w)
            + length (filter (λ r, handle_value h0 r = v) rs))%nat.
Proof.
  induction rs as [|r rs IH]; intros w lib h0 HL Hs Hnd Hrs.
  - exists w. split; [done|]. intros v. cbn. lia.
  - apply NoDup_cons in Hnd as [Hr Hnd].
    destruct (drop_ObjectHandle_loaded r w lib HL Hs) as (w1 & E & HL1 & Hh & Ht).
    destruct (IH w1 lib h0 HL1 Hs Hnd) as (w' & E' & Hcount).
    { intros r' Hr'. destruct (Hrs r') as (x & Hx & Hw); [by right|].
      exists x. split; [done|]. rewrite Hh, lookup_delete_ne; [done|].
      intros ->. done. }
    exists w'. split.
    { cbn [drop_ObjectHandles]. by rewrite bind_unfold, E. }
    intros v. rewrite Hcount, Ht, object_free_calls_app.
    destruct (Hrs r) as (x & Hx & Hw); [by left|].
    unfold marshal. rewrite Hw, Hx. rewrite filter_cons.
    assert (handle_value h0 r = x) as -> by (unfold handle_value; by rewrite Hx).
    cbn [object_free_calls].
    rewrite String.eqb_refl. cbn [andb].
    case_decide as Hv.
    + subst. rewrite Z.eqb_refl. cbn. lia.
    + rewrite (proj2 (Z.eqb_neq x v) Hv). cbn. lia.
Qed.

(** C1, as amended: when the lifetimes of distinct [ObjectHandle]
    instances end (library loaded, entry point present),
    [credx_object_free] is called once for each instance: the calls made
    for a value [v] are as many as the instances that carry [v], so at
    most one only when at most one instance carries [v]. *)
Theorem drop_ObjectHandles_free_calls rs w lib :
  LIB w = Some lib →
  dlsym lib "credx_object_free" = true →
  NoDup rs →
  (∀ r, r ∈ rs → ∃ x, heap w !! r = Some (ObjectHandle x)) →
  ∃ w', drop_ObjectHandles rs w = Some (Ok tt, w') ∧
    ∀ v, object_free_calls v (trace w')
         = (object_free_calls v (trace w)
            + length (filter (λ r, handle_value (heap w) r = v) rs))%nat.
Proof.
  intros HL Hs Hnd Hrs. apply (drop_ObjectHandles_calls rs w lib (heap w)); try done.
  intros r Hr. destruct (Hrs r Hr) as [x Hx]. eauto.
Qed.

(** *** Constructors *)

Lemma create_schema_call origin_did name version attr_names seq_no w lib b1 b2 b3 b4 :
  LIB w = Some lib →
  dlsym lib "credx_create_schema" = true →
  Utf8.encode origin_did = Some b1 →
  Utf8.encode name = Some b2 →
  Utf8.encode version = Some b3 →
  Utf8.encode (json_dumps attr_names) = Some b4 →
  ∃ res w' rest,
    create_schema origin_did name version attr_names seq_no w = Some (res, w')
    ∧ trace w' =
      trace w ++
      EvCall "credx_create_schema"
        [CChars (c_string b1); CChars (c_string b2); CChars (c_string b3);
         CChars (c_string b4); CInt (wrap64 (int_or seq_no (-1)));
         COut (next_ref w)] :: rest.
Proof.
  intros HL Hs H1 H2 H3 H4.
  unfold create_schema, encode_str. rewrite H1, H2, H3, H4.
  unfold do_call, do_call_with, alloc. msimpl.
  rewrite get_library_loaded with (l := lib) by done. rewrite Hs.
  unfold call at 1. cbn [fmap list_fmap marshal c_int64 heap host trace LIB next_ref].
  destruct (native_call _ _ _ _) as [[st o] hs].
  destruct (st =? 0).
  - eexists _, _, []. split; [reflexivity|]. done.
  - fold (get_current_error true).
    match goal with |- context [get_current_error true ?w2] =>
      destruct (total_get_current_error true w2 lib HL)
        as (r & w3 & E & _ & [k Hk] & _); rewrite E end.
    cbn [trace] in Hk.
    destruct r as [[e|]|x]; eexists _, _, k; (split; [reflexivity|]);
      rewrite Hk, <- app_assoc; done.
Qed.

Lemma seq_no_passed_create_schema a1 a2 a3 a4 z r rest :
  seq_no_passed (EvCall "credx_create_schema" [a1; a2; a3; a4; CInt z; r] :: rest)
  = Some z.
Proof. reflexivity. Qed.


(** *** The depth of [get_library] *)

Lemma agree_refl {A} (m : M A) : agree m m.
Proof. by intros w l _. Qed.

Lemma agree_bind {A B} (m1 m2 : M A) (k1 k2 : A → M B) :
  agree m1 m2 → stable m1 → (∀ a, agree (k1 a) (k2 a)) →
  agree (m1 ≫= k1) (m2 ≫= k2).
Proof.
  intros Hm Hs Hk w l HL. rewrite !bind_unfold, <- (Hm w l HL).
  destruct (m1 w) as [[[a|e] w1]|] eqn:E; [|done..].
  apply (Hk a w1 l). eauto.
Qed.

Lemma agree_finalize (m1 m2 : M unit) :
  agree m1 m2 → agree (finalize m1) (finalize m2).
Proof. intros Hm w l HL. unfold finalize. by rewrite (Hm w l HL). Qed.

Section Two_getters.
Variables gl1 gl2 : M CDLL.
Hypothesis gl1_loaded : ∀ w l, LIB w = Some l → gl1 w = Some (Ok l, w).
Hypothesis gl2_loaded : ∀ w l, LIB w = Some l → gl2 w = Some (Ok l, w).

Lemma agree_getters : agree gl1 gl2.
Proof. intros w l HL. by rewrite (gl1_loaded w l HL), (gl2_loaded w l HL). Qed.

Lemma stable_getter : stable gl1.
Proof. intros w r w' l HL. rewrite (gl1_loaded w l HL). by intros [= <- <-]. Qed.

Lemma agree_drop_lib_string_with r :
  agree (drop_lib_string_with gl1 r) (drop_lib_string_with gl2 r).
Proof.
  unfold drop_lib_string_with, lib_string__del__with.
  apply agree_bind; [|apply stable_finalize|intros; apply agree_refl].
  - apply agree_finalize, agree_bind;
      [apply agree_getters|apply stable_getter|intros; apply agree_refl].
  - pose proof stable_getter. stable_tac.
Qed.

Lemma agree_get_current_error_with expect :
  agree (get_current_error_with gl1 expect) (get_current_error_with gl2 expect).
Proof.
  unfold get_current_error_with.
  apply agree_bind; [apply agree_refl|apply stable_alloc|intros r].
  apply agree_bind.
  - apply agree_bind;
      [apply agree_getters|apply stable_getter|intros; apply agree_refl].
  - pose proof stable_getter. stable_tac.
  - intros returned.
    apply agree_bind; [apply agree_refl|stable_tac|intros res].
    apply agree_bind; [apply agree_drop_lib_string_with| |intros; apply agree_refl].
    apply stable_drop_lib_string_with, stable_getter.
Qed.

Lemma agree_do_call_with fn args :
  agree (do_call_with gl1 fn args) (do_call_with gl2 fn args).
Proof.
  unfold do_call_with.
  apply agree_bind; [apply agree_getters|apply stable_getter|intros lib].
  apply agree_bind; [apply agree_refl|stable_tac|intros _].
  apply agree_bind; [apply agree_refl|stable_tac|intros st].
  destruct (st =? 0); [apply agree_refl|].
  apply agree_bind; [apply agree_get_current_error_with| |intros; apply agree_refl].
  apply stable_get_current_error_with, stable_getter.
Qed.
End Two_getters.

(** Unrolling [get_library] further changes nothing ... *)
Theorem get_library_depth n w : get_library_n (2 + n) w = get_library w.
Proof.
  unfold get_library. cbn [Nat.add get_library_n]. 
  rewrite !(bind_unfold get_LIB). unfold get_LIB.
  destruct (LIB w) as [l|]; [done|].
  rewrite !(bind_unfold (_load_library _)).
  destruct (_load_library _ w) as [[[l|e] w1]|]; [|done..].
  rewrite !(bind_unfold (set_LIB l)). unfold set_LIB.
  rewrite !(bind_unfold (do_call_with _ _ _)).
  erewrite (agree_do_call_with (get_library_n (S n)) (get_library_n 1));
    [done|apply get_library_n_loaded..|reflexivity].
Qed.

Lemma CDLL_open_returns p w : ∃ r w', CDLL_open p w = Some (r, w').
Proof. unfold CDLL_open. destruct (dlopen _ _) as [[z|] hs]; eauto. Qed.

Lemma _load_library_returns lib_name w :
  ∃ r w', _load_library lib_name w = Some (r, w').
Proof.
  unfold _load_library. msimpl.
  match goal with |- context [CDLL_open ?p w] =>
    destruct (CDLL_open_returns p w) as ([l|e] & w1 & ->) end; [eauto|].
  destruct e; eauto.
  - destruct (find_library lib_name) as [[|a p]|]; eauto.
    match goal with |- context [CDLL_open ?p ?w] =>
      destruct (CDLL_open_returns p w) as ([l|e] & w2 & ->) end; [eauto|].
    destruct e; eauto.
  - destruct (find_library lib_name) as [[|a p]|]; eauto.
    match goal with |- context [CDLL_open ?p ?w] =>
      destruct (CDLL_open_returns p w) as ([l|e] & w2 & ->) end; [eauto|].
    destruct e; eauto.
Qed.

(** ... and two levels are enough for [get_library] to return. *)
Theorem get_library_returns w : ∃ r w', get_library w = Some (r, w').
Proof.
  destruct (LIB w) as [l|] eqn:HL.
  { rewrite (get_library_loaded _ _ HL). eauto. }
  unfold get_library. cbn [get_library_n].
  rewrite (bind_unfold get_LIB). unfold get_LIB. rewrite HL.
  rewrite (bind_unfold (_load_library _)).
  destruct (_load_library_returns "indy_credx" w) as ([l|e] & w1 & ->); [|eauto].
  rewrite (bind_unfold (set_LIB l)). unfold set_LIB.
  rewrite (bind_unfold (do_call_with _ _ _)).
  erewrite (agree_do_call_with (get_library_n 1) get_library);
    [|apply get_library_n_loaded..|reflexivity].
  match goal with |- context [do_call_with get_library ?f ?a ?w2] =>
    destruct (total_do_call f a w2 l eq_refl) as ([[]|e] & w3 & E & _) end;
    unfold do_call in E; rewrite E; eauto.
Qed.
(** *** Loading the library *)

Lemma _load_library_LIB lib_name w r w' :
  _load_library lib_name w = Some (r, w') → LIB w' = LIB w.
Proof.
  unfold _load_library, CDLL_open, LOGGER, emit. msimpl.
  repeat (case_match; simplify_eq; cbn [LIB host trace heap next_ref] in *);
    by intros [= <- <-].
Qed.

(** The package directory comes first, under the name of the platform. *)
Theorem _load_library_first_open lib_name w :
  ∃ r w' rest,
    _load_library lib_name w = Some (r, w')
    ∧ trace w' = trace w ++ EvOpen (package_path lib_name) :: rest
    ∧ (sys_platform = "win32" →
       package_path lib_name = path_join module_dir (lib_name +:+ ".dll"))
    ∧ (sys_platform = "darwin" →
       package_path lib_name
       = path_join module_dir ("lib" +:+ lib_name +:+ ".dylib"))
    ∧ (sys_platform ≠ "win32" → sys_platform ≠ "darwin" →
       package_path lib_name
       = path_join module_dir ("lib" +:+ lib_name +:+ ".so")).
Proof.
  assert (∃ r w' rest, _load_library lib_name w = Some (r, w')
            ∧ trace w' = trace w ++ EvOpen (package_path lib_name) :: rest)
    as (r & w' & rest & E & Ht).
  { unfold _load_library, CDLL_open, LOGGER, emit. msimpl.
    fold (package_path lib_name).
    repeat (case_match; simplify_eq; cbn [LIB host trace heap next_ref] in * );
      eexists _, _, _; (split; [reflexivity|]); cbn [trace];
      rewrite <- ?app_assoc; reflexivity. }
  exists r, w', rest. split_and!; try done.
  - intros Hp. unfold package_path, lib_prefix_mapping, lib_suffix_mapping.
    by rewrite Hp.
  - intros Hp. unfold package_path, lib_prefix_mapping, lib_suffix_mapping.
    by rewrite Hp.
  - intros Hw Hd. unfold package_path, lib_prefix_mapping, lib_suffix_mapping.
    rewrite lookup_singleton_ne by done.
    rewrite lookup_insert_ne by done. by rewrite lookup_singleton_ne by done.
Qed.

Lemma _load_library_opens_package lib_name w z hs :
  dlopen (package_path lib_name) (host w) = (Some z, hs) →
  ∃ w', _load_library lib_name w
        = Some (Ok (mkCDLL (package_path lib_name) z), w')
        ∧ trace w' = trace w ++ [EvOpen (package_path lib_name)]
        ∧ host w' = hs.
Proof.
  intros Ho. unfold _load_library, CDLL_open. msimpl.
  fold (package_path lib_name). rewrite Ho.
  eexists. split; [reflexivity|]. done.
Qed.

(** When the library sits in the package directory it is taken from
    there: no system search, nothing logged. *)
Theorem _load_library_package lib_name w z hs :
  dlopen (package_path lib_name) (host w) = (Some z, hs) →
  ∃ w', _load_library lib_name w
        = Some (Ok (mkCDLL (package_path lib_name) z), w')
        ∧ trace w' = trace w ++ [EvOpen (package_path lib_name)]
        ∧ host w' = hs.
Proof. apply _load_library_opens_package. Qed.

(** When it does not, a warning is logged and the library that
    [find_library] finds is opened. *)
Theorem _load_library_fallback lib_name w hs p z hs' :
  dlopen (package_path lib_name) (host w) = (None, hs) →
  find_library lib_name = Some p →
  p ≠ EmptyString →
  dlopen p hs = (Some z, hs') →
  ∃ w', _load_library lib_name w = Some (Ok (mkCDLL p z), w')
        ∧ trace w' =
          trace w ++
          [EvOpen (package_path lib_name);
           EvLog "warning" "Library not loaded from python package";
           EvFind lib_name; EvOpen p].
Proof.
  intros Ho Hf Hp Ho'. unfold _load_library, CDLL_open, LOGGER, emit. msimpl.
  fold (package_path lib_name). rewrite Ho. cbn [host trace]. rewrite Hf.
  destruct p as [|a p]; [done|]. cbn [host trace LIB heap next_ref]. rewrite Ho'.
  eexists. split; [reflexivity|]. cbn [trace]. by rewrite <- !app_assoc.
Qed.

(** Whatever goes wrong, the only exception that leaves [_load_library]
    is the [WRAPPER] error "Error loading library: <name>". *)
Theorem _load_library_raises lib_name w e w' :
  _load_library lib_name w = Some (Raise e, w') →
  e = CredxErrorExc (loading_error lib_name).
Proof.
  unfold _load_library, CDLL_open, LOGGER, emit, loading_error. msimpl.
  repeat (case_match; simplify_eq; cbn [LIB host trace heap next_ref] in * );
    by intros [= <- <-].
Qed.

(** It is raised when the package directory has no library and
    [find_library] finds none. *)
Theorem _load_library_not_found lib_name w hs :
  dlopen (package_path lib_name) (host w) = (None, hs) →
  find_library lib_name = None ∨ find_library lib_name = Some EmptyString →
  ∃ w', _load_library lib_name w
        = Some (Raise (CredxErrorExc (loading_error lib_name)), w')
        ∧ trace w' =
          trace w ++
          [EvOpen (package_path lib_name);
           EvLog "warning" "Library not loaded from python package";
           EvFind lib_name].
Proof.
  intros Ho Hf. unfold _load_library, CDLL_open, LOGGER, emit. msimpl.
  fold (package_path lib_name). rewrite Ho. cbn [host trace].
  destruct Hf as [-> | ->]; (eexists; split; [reflexivity|]); cbn [trace];
    by rewrite <- !app_assoc.
Qed.

(** *** The first call of [get_library] *)

Lemma get_library_unfold :
  get_library =
  (lib ← get_LIB;
   match lib with
   | None =>
       l ← _load_library "indy_credx";
       set_LIB l;;
       do_call_with (get_library_n 1) "credx_set_default_logger" [];;
       mret l
   | Some l => mret l
   end).
Proof. reflexivity. Qed.

(** A failed load leaves [LIB] unassigned: the next call tries again. *)
Theorem get_library_load_failure w e w1 :
  LIB w = None →
  _load_library "indy_credx" w = Some (Raise e, w1) →
  get_library w = Some (Raise e, w1) ∧ LIB w1 = None.
Proof.
  intros HL Hl. split.
  - rewrite get_library_unfold. msimpl. by rewrite HL, Hl.
  - by rewrite (_load_library_LIB _ _ _ _ Hl).
Qed.

(** The first call opens the library and registers the default logger,
    once each, in this order. *)
Theorem get_library_first_call w z hs lib w2 :
  LIB w = None →
  dlopen (package_path "indy_credx") (host w) = (Some z, hs) →
  lib = mkCDLL (package_path "indy_credx") z →
  dlsym lib "credx_set_default_logger" = true →
  call lib "credx_set_default_logger" []
    (after (set_LIB lib) (after (_load_library "indy_credx") w))
  = Some (Ok 0, w2) →
  get_library w = Some (Ok lib, w2)
  ∧ LIB w2 = Some lib
  ∧ trace w2 =
    trace w ++
    [EvOpen (package_path "indy_credx"); EvCall "credx_set_default_logger" []].
Proof.
  intros HL Ho -> Hs Hc.
  destruct (_load_library_opens_package "indy_credx" w z hs Ho) as (w1 & Hl & Ht & _).
  revert Hc. unfold after at 2. rewrite Hl. unfold after, set_LIB. intros Hc.
  split_and!.
  - rewrite get_library_unfold. msimpl. rewrite HL, Hl.
    unfold set_LIB, do_call_with. msimpl.
    rewrite get_library_n_loaded with (l := mkCDLL (package_path "indy_credx") z)
      by done.
    by rewrite Hs, Hc.
  - by rewrite (call_LIB _ _ _ _ _ _ Hc).
  - revert Hc. unfold call. cbn [fmap list_fmap host heap trace].
    destruct (native_call _ _ _ _) as [[s o] h']. intros [= _ <-].
    cbn [trace]. by rewrite Ht, <- app_assoc.
Qed.

(** When the registration of the logger fails, [get_library] raises, but
    [LIB] is assigned all the same: the calls that follow return the
    library and the logger is not registered again. *)
Theorem get_library_logger_failure w lib w1 status w2 :
  LIB w = None →
  _load_library "indy_credx" w = Some (Ok lib, w1) →
  dlsym lib "credx_set_default_logger" = true →
  call lib "credx_set_default_logger" [] (after (set_LIB lib) w1)
  = Some (Ok status, w2) →
  status ≠ 0 →
  ∃ e w', get_library w = Some (Raise e, w')
          ∧ LIB w' = Some lib
          ∧ get_library w' = Some (Ok lib, w').
Proof.
  intros HL Hl Hs Hc Hne. revert Hc. unfold after, set_LIB. intros Hc.
  assert (LIB w2 = Some lib) as HL2 by by rewrite (call_LIB _ _ _ _ _ _ Hc).
  destruct (total_get_current_error true w2 lib HL2)
    as (r & w3 & E & HL3 & _ & Hr).
  assert (get_current_error_with (get_library_n 1) true w2 = Some (r, w3)) as E'.
  { rewrite <- E.
    apply (agree_get_current_error_with (get_library_n 1) (get_library_n 2))
      with (l := lib); [apply get_library_n_loaded..|done]. }
  assert (∃ e, get_library w = Some (Raise e, w3)) as [e He].
  { rewrite get_library_unfold. msimpl. rewrite HL, Hl.
    unfold set_LIB, do_call_with. msimpl.
    rewrite get_library_n_loaded with (l := lib) by done.
    rewrite Hs, Hc, (proj2 (Z.eqb_neq status 0) Hne), E'.
    destruct r as [[x|]|x]; eauto. }
  exists e, w3. split_and!; [done|done|]. by apply get_library_loaded.
Qed.

(** *** More on the call dispatcher and the error channel *)

Ltac settled scrutinee :=
  lazymatch scrutinee with
  | context [get_library] => fail
  | context [match _ with _ => _ end] => fail
  | _ => idtac
  end.

Ltac split_inner :=
  match goal with
  | |- context [match ?scrutinee with _ => _ end] =>
      settled scrutinee; destruct scrutinee eqn:?
  end.


(** An entry point that the library does not export: [AttributeError],
    and nothing reaches the native side. *)
Theorem do_call_missing_symbol fn_name args w lib w1 :
  get_library w = Some (Ok lib, w1) →
  dlsym lib fn_name = false →
  do_call fn_name args w = Some (Raise AttributeError, w1).
Proof.
  intros Hg Hs. unfold do_call, do_call_with. msimpl. by rewrite Hg, Hs.
Qed.



(** A document that [json.loads] refuses: the refusal is logged and the
    result is that of a payload without fields. *)
Theorem get_current_error_malformed expect w r wa lib w1 w2 b :
  alloc (lib_string None) w = Some (Ok r, wa) →
  get_library wa = Some (Ok lib, w1) →
  dlsym lib "credx_get_current_error" = true →
  call lib "credx_get_current_error" [AByref r] w1 = Some (Ok 0, w2) →
  string_value (heap w2) r = Some b →
  json_loads b = Raise JSONDecodeError →
  ∃ w', get_current_error expect w =
        Some (Ok (if expect then Some unknown_error else None), w')
        ∧ ∃ rest, trace w' =
            trace w2 ++
            EvLog "warning" "JSON decode error for credx_get_current_error"
            :: rest.
Proof.
  intros Ha Hg Hs Hc Hv Hj.
  assert (LIB w2 = Some lib) as HL.
  { rewrite (call_LIB _ _ _ _ _ _ Hc). by apply get_library_LIB in Hg. }
  set (w3 := mkWorld (LIB w2) (heap w2) (next_ref w2) (host w2)
               (trace w2 ++ [EvLog "warning" "JSON decode error for credx_get_current_error"])).
  destruct (total_drop_lib_string r (λ _, True) I w3 lib HL)
    as (x & w' & Hw' & _ & [k Hk] & _).
  assert (x = Ok tt) as ->.
  { destruct (drop_lib_string_returns r w3 lib HL) as [w'' E]. congruence. }
  exists w'. split.
  - revert Hw'. unfold drop_lib_string.
    fetch Ha Hg Hs Hc. rewrite Hv. cbn [loads]. rewrite Hj.
    cbn [has_message_and_code truthy]. fold w3.
    destruct expect; cbn [negb]; by intros ->.
  - exists k. rewrite Hk. cbn [trace w3]. by rewrite <- app_assoc.
Qed.

(** Any other exception of [json.loads] (a document that is not UTF-8,
    for one) is not caught. *)
Theorem get_current_error_loads_raises expect w r wa lib w1 w2 b e :
  alloc (lib_string None) w = Some (Ok r, wa) →
  get_library wa = Some (Ok lib, w1) →
  dlsym lib "credx_get_current_error" = true →
  call lib "credx_get_current_error" [AByref r] w1 = Some (Ok 0, w2) →
  string_value (heap w2) r = Some b →
  json_loads b = Raise e →
  e ≠ JSONDecodeError →
  get_current_error expect w = Some (Raise e, w2).
Proof.
  intros Ha Hg Hs Hc Hv Hj He.
  fetch Ha Hg Hs Hc. rewrite Hv. cbn [loads]. rewrite Hj.
  by destruct e.
Qed.

(** *** Objects and their JSON *)

Lemma store_lib_string (h : gmap nat pyobj) r q p :
  h !! r = Some (lib_string q) →
  foldl store h [(r, lib_string p)] = <[r := lib_string p]> h.
Proof. intros Hr. cbn. unfold store. cbn. by rewrite Hr. Qed.

Lemma store_ObjectHandle (h : gmap nat pyobj) r u v :
  h !! r = Some (ObjectHandle u) →
  foldl store h [(r, ObjectHandle v)] = <[r := ObjectHandle v]> h.
Proof. intros Hr. cbn. unfold store. cbn. by rewrite Hr. Qed.


Lemma drop_lib_string_frees_free r p w lib :
  LIB w = Some lib →
  dlsym lib "credx_string_free" = true →
  heap w !! r = Some (lib_string p) →
  ∃ w', drop_lib_string r w = Some (Ok tt, w')
        ∧ trace w' = trace w ++ [EvCall "credx_string_free" [CPtr p]]
        ∧ heap w' = delete r (heap w).
Proof.
  intros HL Hs Hr.
  unfold drop_lib_string, drop_lib_string_with, lib_string__del__with.
  msimpl. rewrite (get_library_loaded _ _ HL), Hs.
  unfold call. cbn [fmap list_fmap marshal]. rewrite Hr.
  destruct (native_call _ _ _ _) as [[s o] hs].
  eexists. split; [reflexivity|]. cbn [trace heap]. done.
Qed.

Lemma object_get_json_stores handle v w lib p hs :
  LIB w = Some lib →
  dlsym lib "credx_object_get_json" = true →
  heap w !! handle = Some (ObjectHandle v) →
  heap w !! next_ref w = None →
  native_call lib "credx_object_get_json" [CInt v; COut (next_ref w)] (host w)
  = ((0, [lib_string p]), hs) →
  ∃ w', object_get_json handle w = Some (Ok (next_ref w), w')
        ∧ heap w' = <[next_ref w := lib_string p]> (heap w)
        ∧ string_value (heap w') (next_ref w) = p
        ∧ LIB w' = Some lib ∧ host w' = hs ∧ next_ref w' = S (next_ref w)
        ∧ trace w' =
          trace w ++
          [EvCall "credx_object_get_json" [CInt v; COut (next_ref w)]].
Proof.
  intros HL Hs Hh Hn Hc.
  assert (handle ≠ next_ref w) as Hne by (intros ->; congruence).
  unfold object_get_json, do_call, do_call_with, alloc. msimpl.
  rewrite (get_library_loaded _ lib) by done. rewrite Hs.
  unfold call. cbn [fmap list_fmap marshal heap host trace LIB next_ref].
  rewrite lookup_insert_ne by done. rewrite Hh, Hc. cbn [Z.eqb out_refs omap].
  eexists. split; [reflexivity|]. cbn [heap LIB host next_ref trace].
  change (zip (out_refs [CInt v; COut (next_ref w)]) [lib_string p])
    with [(next_ref w, lib_string p)].
  rewrite (store_lib_string _ _ None) by apply lookup_insert_eq.
  rewrite insert_insert_eq. split_and!; try done.
  unfold string_value. by rewrite lookup_insert_eq.
Qed.

(** [object_get_json] gives a new [lib_string] that wraps the string the
    native side stored. *)
Theorem object_get_json_success handle v w lib p hs :
  LIB w = Some lib →
  dlsym lib "credx_object_get_json" = true →
  heap w !! handle = Some (ObjectHandle v) →
  heap w !! next_ref w = None →
  native_call lib "credx_object_get_json" [CInt v; COut (next_ref w)] (host w)
  = ((0, [lib_string p]), hs) →
  ∃ w', object_get_json handle w = Some (Ok (next_ref w), w')
        ∧ heap w' = <[next_ref w := lib_string p]> (heap w)
        ∧ string_value (heap w') (next_ref w) = p
        ∧ LIB w' = Some lib ∧ host w' = hs ∧ next_ref w' = S (next_ref w)
        ∧ trace w' =
          trace w ++
          [EvCall "credx_object_get_json" [CInt v; COut (next_ref w)]].
Proof. apply object_get_json_stores. Qed.

(** [to_json] decodes the string and gives it back to the library: one
    call of [credx_string_free], and no instance is left behind. *)
Theorem to_json_text handle v w lib b s hs :
  LIB w = Some lib →
  dlsym lib "credx_object_get_json" = true →
  dlsym lib "credx_string_free" = true →
  heap w !! handle = Some (ObjectHandle v) →
  heap w !! next_ref w = None →
  native_call lib "credx_object_get_json" [CInt v; COut (next_ref w)] (host w)
  = ((0, [lib_string (Some b)]), hs) →
  decode_str b = Ok s →
  ∃ w', to_json handle w = Some (Ok s, w')
        ∧ heap w' = heap w
        ∧ trace w' =
          trace w ++
          [EvCall "credx_object_get_json" [CInt v; COut (next_ref w)];
           EvCall "credx_string_free" [CPtr (Some b)]].
Proof.
  intros HL Hs Hf Hh Hn Hc Hd.
  destruct (object_get_json_stores handle v w lib (Some b) hs HL Hs Hh Hn Hc)
    as (w1 & E & Hh1 & Hv & HL1 & _ & _ & Ht1).
  destruct (drop_lib_string_frees_free (next_ref w) (Some b) w1 lib HL1 Hf)
    as (w2 & E2 & Ht2 & Hh2).
  { by rewrite Hh1, lookup_insert_eq. }
  exists w2. split_and!.
  - unfold to_json. msimpl. rewrite E. unfold lib_string__str__. msimpl.
    rewrite Hv, Hd. by rewrite E2.
  - by rewrite Hh2, Hh1, delete_insert_eq, delete_id.
  - by rewrite Ht2, Ht1, <- app_assoc.
Qed.

(** When the native side reports success and stores no string, the text
    is empty. *)
Theorem to_json_null handle v w lib hs :
  LIB w = Some lib →
  dlsym lib "credx_object_get_json" = true →
  dlsym lib "credx_string_free" = true →
  heap w !! handle = Some (ObjectHandle v) →
  heap w !! next_ref w = None →
  native_call lib "credx_object_get_json" [CInt v; COut (next_ref w)] (host w)
  = ((0, [lib_string None]), hs) →
  ∃ w', to_json handle w = Some (Ok [], w')
        ∧ heap w' = heap w
        ∧ trace w' =
          trace w ++
          [EvCall "credx_object_get_json" [CInt v; COut (next_ref w)];
           EvCall "credx_string_free" [CPtr None]].
Proof.
  intros HL Hs Hf Hh Hn Hc.
  destruct (object_get_json_stores handle v w lib None hs HL Hs Hh Hn Hc)
    as (w1 & E & Hh1 & Hv & HL1 & _ & _ & Ht1).
  destruct (drop_lib_string_frees_free (next_ref w) None w1 lib HL1 Hf)
    as (w2 & E2 & Ht2 & Hh2).
  { by rewrite Hh1, lookup_insert_eq. }
  exists w2. split_and!.
  - unfold to_json. msimpl. rewrite E. unfold lib_string__str__. msimpl.
    rewrite Hv. by rewrite E2.
  - by rewrite Hh2, Hh1, delete_insert_eq, delete_id.
  - by rewrite Ht2, Ht1, <- app_assoc.
Qed.

(** *** More on the constructors *)

(** On success [create_schema] returns a new [ObjectHandle] that carries
    the value the native side stored, after one native call. *)
Theorem create_schema_success origin_did name version attr_names seq_no
    w lib b1 b2 b3 b4 v hs :
  LIB w = Some lib →
  dlsym lib "credx_create_schema" = true →
  Utf8.encode origin_did = Some b1 →
  Utf8.encode name = Some b2 →
  Utf8.encode version = Some b3 →
  Utf8.encode (json_dumps attr_names) = Some b4 →
  native_call lib "credx_create_schema"
    [CChars (c_string b1); CChars (c_string b2); CChars (c_string b3);
     CChars (c_string b4); CInt (wrap64 (int_or seq_no (-1)));
     COut (next_ref w)] (host w)
  = ((0, [ObjectHandle v]), hs) →
  ∃ w', create_schema origin_did name version attr_names seq_no w
        = Some (Ok (next_ref w), w')
        ∧ handle_value (heap w') (next_ref w) = v
        ∧ trace w' =
          trace w ++
          [EvCall "credx_create_schema"
             [CChars (c_string b1); CChars (c_string b2); CChars (c_string b3);
              CChars (c_string b4); CInt (wrap64 (int_or seq_no (-1)));
              COut (next_ref w)]].
Proof.
  intros HL Hs H1 H2 H3 H4 Hc.
  unfold create_schema, encode_str. rewrite H1, H2, H3, H4.
  unfold do_call, do_call_with, alloc. msimpl.
  rewrite (get_library_loaded _ lib) by done. rewrite Hs.
  unfold call. cbn [fmap list_fmap marshal c_int64 heap host trace LIB next_ref].
  rewrite Hc. cbn [Z.eqb].
  eexists. split; [reflexivity|]. cbn [heap trace]. split; [|done].
  match goal with |- context [zip ?a ?b] =>
    change (zip a b) with [(next_ref w, ObjectHandle v)] end.
  rewrite (store_ObjectHandle _ _ 0) by apply lookup_insert_eq.
  unfold handle_value. by rewrite lookup_insert_eq.
Qed.

(** A string that cannot be encoded stops [create_schema] before
    anything reaches the native side. *)
Theorem create_schema_unencodable origin_did name version attr_names seq_no w :
  Utf8.encode origin_did = None ∨ Utf8.encode name = None
  ∨ Utf8.encode version = None ∨ Utf8.encode (json_dumps attr_names) = None →
  ∃ w', create_schema origin_did name version attr_names seq_no w
        = Some (Raise UnicodeEncodeError, w')
        ∧ trace w' = trace w ∧ host w' = host w ∧ LIB w' = LIB w.
Proof.
  intros He. unfold create_schema, encode_str, alloc. msimpl.
  destruct (Utf8.encode origin_did); [|by eauto].
  destruct (Utf8.encode name); [|by eauto].
  destruct (Utf8.encode version); [|by eauto].
  destruct (Utf8.encode (json_dumps attr_names)); [|by eauto].
  by destruct He as [?|[?|[?|?]]].
Qed.

Lemma wrap64_range z : - 2 ^ 63 ≤ wrap64 z < 2 ^ 63.
Proof. unfold wrap64. pose proof (Z.mod_pos_bound (z + 2 ^ 63) (2 ^ 64)). lia. Qed.

Lemma wrap64_congruent z : (wrap64 z - z) mod 2 ^ 64 = 0.
Proof.
  unfold wrap64.
  replace ((z + 2 ^ 63) mod 2 ^ 64 - 2 ^ 63 - z)
    with (- (2 ^ 64 * ((z + 2 ^ 63) / 2 ^ 64))).
  - rewrite <- Z.mul_opp_r, Z.mul_comm. apply Z.mod_mul. lia.
  - pose proof (Z.div_mod (z + 2 ^ 63) (2 ^ 64)). lia.
Qed.

(** Whatever [seq_no] is, the sequence number that reaches the native
    side fits in 64 bits, signed, and is [seq_no or -1] modulo 2^64. *)
Theorem create_schema_seq_no_int64 origin_did name version attr_names seq_no
    w lib :
  LIB w = Some lib →
  dlsym lib "credx_create_schema" = true →
  is_Some (Utf8.encode origin_did) →
  is_Some (Utf8.encode name) →
  is_Some (Utf8.encode version) →
  is_Some (Utf8.encode (json_dumps attr_names)) →
  ∃ res w' evs z,
    create_schema origin_did name version attr_names seq_no w = Some (res, w')
    ∧ trace w' = trace w ++ evs
    ∧ seq_no_passed evs = Some z
    ∧ - 2 ^ 63 ≤ z < 2 ^ 63
    ∧ (z - int_or seq_no (-1)) mod 2 ^ 64 = 0.
Proof.
  intros HL Hs [b1 H1] [b2 H2] [b3 H3] [b4 H4].
  destruct (create_schema_call origin_did name version attr_names seq_no
              w lib b1 b2 b3 b4) as (res & w' & rest & E & Ht); try done.
  eexists res, w', _, _.
  split; [exact E|]. split; [exact Ht|].
  split; [apply seq_no_passed_create_schema|].
  split; [apply wrap64_range|apply wrap64_congruent].
Qed.

(** *** [LIB] is assigned once *)

(** No operation of the module changes [LIB] once it holds a library. *)
Theorem module_keeps_LIB :
  stable get_library
  ∧ (∀ fn_name args, stable (do_call fn_name args))
  ∧ (∀ expect, stable (get_current_error expect))
  ∧ (∀ handle, stable (object_free handle))
  ∧ (∀ handle, stable (object_get_json handle))
  ∧ (∀ handle, stable (to_json handle))
  ∧ (∀ origin_did name version attr_names seq_no,
       stable (create_schema origin_did name version attr_names seq_no))
  ∧ (∀ r, stable (drop_ObjectHandle r))
  ∧ (∀ r, stable (drop_lib_string r)).
Proof.
  pose proof (stable_get_library_n 2) as Hg. fold get_library in Hg.
  assert (∀ fn_name args, stable (do_call fn_name args)) as Hd
    by (intros; by apply stable_do_call_with).
  assert (∀ r, stable (drop_lib_string r)) as Hs
    by (intros; by apply stable_drop_lib_string_with).
  split_and!; try done.
  - intros. by apply stable_get_current_error_with.
  - intros. unfold object_free.
    apply stable_bind; [done|intros]. stable_tac.
  - intros. unfold object_get_json.
    apply stable_bind; [stable_tac|intros].
    apply stable_bind; [apply Hd|intros]. stable_tac.
  - intros. unfold to_json, object_get_json, lib_string__str__.
    apply stable_bind.
    { apply stable_bind; [stable_tac|intros].
      apply stable_bind; [apply Hd|intros]. stable_tac. }
    intros. apply stable_bind; [stable_tac|intros].
    apply stable_bind; [apply Hs|intros]. stable_tac.
  - intros. unfold create_schema.
    do 5 (apply stable_bind; [stable_tac|intros]).
    apply stable_bind; [apply Hd|intros]. stable_tac.
  - intros. unfold drop_ObjectHandle, ObjectHandle__del__, object_free.
    apply stable_bind; [|intros; stable_tac].
    apply stable_finalize, stable_bind; [done|intros]. stable_tac.
Qed.

(** *** Payloads without the fields *)

Lemma existsb_PStr key (l : list pyvalue) :
  existsb (λ x, match x with
                | PStr s => bool_decide (s = key)
                | _ => false
                end) l = false
  ↔ PStr key ∉ l.
Proof.
  induction l as [|x l IH]; cbn [existsb].
  - split; [intros _; apply not_elem_of_nil|done].
  - rewrite orb_false_iff, IH, not_elem_of_cons. split.
    + intros [Hx Hl]. split; [|done].
      destruct x; try done. apply bool_decide_eq_false in Hx. congruence.
    + intros [Hx Hl]. split; [|done].
      destruct x; try done. apply bool_decide_eq_false. congruence.
Qed.

Lemma has_message_and_code_missing msg :
  fields_missing msg → has_message_and_code msg = Ok false.
Proof.
  unfold fields_missing, has_message_and_code.
  intros [-> | Hm]; [done|]. destruct (truthy msg); [|done].
  destruct msg as [| | | |s|l|d]; try done; cbn [py_contains].
  - destruct Hm as [Hm | Hm]; rewrite Hm; [done|].
    by case (is_substring (str_of "message") s).
  - destruct Hm as [Hm | Hm]; apply existsb_PStr in Hm; rewrite Hm; [done|].
    by case (existsb _ l).
  - destruct Hm as [Hm | Hm]; rewrite Hm.
    + by rewrite bool_decide_eq_false_2 by by intros [? [=]].
    + rewrite (bool_decide_eq_false_2 (is_Some None)) by by intros [? [=]].
      by case (bool_decide _).
Qed.

(** C5, as amended: when the native fetch succeeds and the decoded
    payload is falsy, or is an object, an array or a string in which
    [in] does not find both ["message"] and ["code"] (an object that
    lacks one of the two fields is the case in point),
    [get_current_error] returns [None] for [expect = False] and the
    [WRAPPER] error "Unknown error" for [expect = True]. *)
Theorem get_current_error_fields_missing expect w r wa lib w1 w2 b msg :
  alloc (lib_string None) w = Some (Ok r, wa) →
  get_library wa = Some (Ok lib, w1) →
  dlsym lib "credx_get_current_error" = true →
  call lib "credx_get_current_error" [AByref r] w1 = Some (Ok 0, w2) →
  string_value (heap w2) r = Some b →
  json_loads b = Ok msg →
  fields_missing msg →
  ∃ w', get_current_error expect w =
        Some (Ok (if expect then Some unknown_error else None), w').
Proof.
  intros Ha Hg Hs Hc Hv Hj Hm.
  assert (LIB w2 = Some lib) as HL.
  { rewrite (call_LIB _ _ _ _ _ _ Hc). by apply get_library_LIB in Hg. }
  destruct (drop_lib_string_returns r w2 lib HL) as [w' Hw'].
  exists w'. revert Hw'. unfold drop_lib_string.
  fetch Ha Hg Hs Hc. rewrite Hv. cbn [loads]. rewrite Hj.
  rewrite (has_message_and_code_missing msg Hm).
  destruct expect; cbn [negb]; by intros ->.
Qed.

(** *** One load *)

(** A load that succeeds ends with the opening of the library it
    returns, straight away or after the attempt in the package directory
    has failed. *)
Lemma _load_library_opens lib_name w l w1 :
  _load_library lib_name w = Some (Ok l, w1) →
  ∃ pre,
    trace w1 = trace w ++ pre ++ [EvOpen (cdll_name l)]
    ∧ (pre = [] ∨
       pre = [EvOpen (package_path lib_name);
              EvLog "warning" "Library not loaded from python package";
              EvFind lib_name]).
Proof.
  unfold _load_library, CDLL_open, LOGGER, emit. msimpl.
  fold (package_path lib_name).
  repeat (case_match; simplify_eq; cbn [LIB host trace heap next_ref] in * );
    intros [= <- <-]; cbn [trace cdll_name].
  all: first [ exists []; split; [reflexivity | by left]
             | eexists; split; [|by right]; by rewrite <- !app_assoc ].
Qed.

(** A call of [get_library] that finds [LIB] unassigned starts with an
    attempt to open the library in the package directory. *)
Lemma get_library_opens w :
  LIB w = None →
  ∃ r w' rest,
    get_library w = Some (r, w')
    ∧ trace w' = trace w ++ EvOpen (package_path "indy_credx") :: rest.
Proof.
  intros HL.
  assert (∃ r w1 rest, _load_library "indy_credx" w = Some (r, w1)
            ∧ trace w1 = trace w ++ EvOpen (package_path "indy_credx") :: rest)
    as (r1 & w1 & rest1 & El & Ht1).
  { unfold _load_library, CDLL_open, LOGGER, emit. msimpl.
    fold (package_path "indy_credx").
    repeat (case_match; simplify_eq; cbn [LIB host trace heap next_ref] in * );
      eexists _, _, _; (split; [reflexivity|]); cbn [trace];
      rewrite <- ?app_assoc; reflexivity. }
  unfold get_library. cbn [get_library_n].
  rewrite (bind_unfold get_LIB). unfold get_LIB. rewrite HL.
  rewrite (bind_unfold (_load_library _)), El.
  destruct r1 as [l|e]; [|by eexists _, _, _].
  rewrite (bind_unfold (set_LIB l)). unfold set_LIB.
  rewrite (bind_unfold (do_call_with _ _ _)).
  erewrite (agree_do_call_with (get_library_n 1) get_library);
    [|apply get_library_n_loaded..|reflexivity].
  match goal with |- context [do_call_with get_library ?f ?a ?w2] =>
    destruct (total_do_call f a w2 l eq_refl) as (r & w3 & E & _ & [k Hk] & _) end.
  unfold do_call in E. rewrite E. cbn [trace] in Hk.
  destruct r as [[]|e]; eexists _, _, (rest1 ++ k);
    (split; [reflexivity|]); by rewrite Hk, Ht1, <- app_assoc.
Qed.

(** C7, as amended: a call of [get_library] that finds [LIB] unassigned
    and returns the library has run the load-and-initialize sequence
    once: [_load_library] opened the library it returns (after at most
    one failed attempt in the package directory), then the default
    logger was registered, once, and nothing else happened; from then on
    every call returns this library and leaves the world as it is.  A
    call that finds [LIB] assigned does nothing.  A call whose load
    fails raises and leaves [LIB] unassigned, so that the next call runs
    the load again. *)
Theorem get_library_once w :
  (∀ l w',
     LIB w = None →
     get_library w = Some (Ok l, w') →
     ∃ w1 pre,
       _load_library "indy_credx" w = Some (Ok l, w1)
       ∧ trace w' =
         trace w ++ pre
         ++ [EvOpen (cdll_name l); EvCall "credx_set_default_logger" []]
       ∧ (pre = [] ∨
          pre = [EvOpen (package_path "indy_credx");
                 EvLog "warning" "Library not loaded from python package";
                 EvFind "indy_credx"])
       ∧ LIB w' = Some l
       ∧ get_library w' = Some (Ok l, w')
       ∧ ∀ w'', LIB w'' = Some l → get_library w'' = Some (Ok l, w''))
  ∧ (∀ l, LIB w = Some l → get_library w = Some (Ok l, w))
  ∧ (∀ e w1,
       LIB w = None →
       _load_library "indy_credx" w = Some (Raise e, w1) →
       get_library w = Some (Raise e, w1)
       ∧ LIB w1 = None
       ∧ ∃ r w2 rest,
           get_library w1 = Some (r, w2)
           ∧ trace w2 = trace w1 ++ EvOpen (package_path "indy_credx") :: rest).
Proof.
  split_and!.
  - intros l w' HL Hg.
    pose proof (get_library_LIB _ _ _ Hg) as HL'.
    pose proof (get_library_loaded _ _ HL') as Hg'.
    assert (∃ w1, _load_library "indy_credx" w = Some (Ok l, w1)
                  ∧ trace w' = trace w1 ++ [EvCall "credx_set_default_logger" []])
      as (w1 & El & Et).
    { clear HL' Hg'. revert Hg. rewrite get_library_unfold. msimpl. rewrite HL.
      destruct (_load_library "indy_credx" w) as [[[l1|e] w1]|]; [|done..].
      unfold set_LIB, do_call_with. msimpl.
      rewrite (get_library_n_loaded 0 _ l1) by done.
      destruct (dlsym l1 "credx_set_default_logger"); [|done].
      unfold call. cbn [fmap list_fmap heap host trace LIB next_ref].
      destruct (native_call _ _ _ _) as [[st o] hs].
      destruct (st =? 0).
      - intros [= <- <-]. by exists w1.
      - intros Hg. exfalso. revert Hg. repeat case_match; by intros [=]. }
    destruct (_load_library_opens _ _ _ _ El) as (pre & Ht1 & Hpre).
    exists w1, pre. split_and!; try done.
    + by rewrite Et, Ht1, <- !app_assoc.
    + intros w'' E. by apply get_library_loaded.
  - intros l HL. by apply get_library_loaded.
  - intros e w1 HL El.
    assert (LIB w1 = None) as HL1 by by rewrite (_load_library_LIB _ _ _ _ El).
    split_and!; [|done|].
    + rewrite get_library_unfold. msimpl. by rewrite HL, El.
    + by apply get_library_opens.
Qed.

(** *** The string that the error lookup fetched *)

Lemma fetch_keeps_lib_string lib w status wf :
  call lib "credx_get_current_error" [AByref (next_ref w)]
    (after (alloc (lib_string None)) w) = Some (Ok status, wf) →
  ∃ p, heap wf !! next_ref w = Some (lib_string p)
       ∧ trace wf = trace w ++ [EvCall "credx_get_current_error" [COut (next_ref w)]]
       ∧ LIB wf = LIB w.
Proof.
  unfold after, alloc, call. cbn [fmap list_fmap marshal heap host trace LIB].
  destruct (native_call _ _ _ _) as [[s outs] hs]. intros [= _ <-].
  cbn [heap trace LIB]. 
  assert (∃ p, foldl store (<[next_ref w := lib_string None]> (heap w))
                 (zip (out_refs [COut (next_ref w)]) outs) !! next_ref w
               = Some (lib_string p)) as [p Hp]; [|by exists p].
  destruct outs as [|[v|p] outs]; cbn; unfold store; cbn;
    rewrite ?lookup_insert_eq; eexists; by rewrite ?lookup_insert_eq.
Qed.

(** When [get_current_error] returns, the string that the native side
    stored in [err_json] (absent when it stored none) is what
    [credx_string_free] was called with, once, after the fetch and at
    most one log record, and the wrapper is gone. *)
Theorem get_current_error_releases expect w lib x w' :
  LIB w = Some lib →
  dlsym lib "credx_string_free" = true →
  get_current_error expect w = Some (Ok x, w') →
  ∃ status wf mid,
    call lib "credx_get_current_error" [AByref (next_ref w)]
      (after (alloc (lib_string None)) w) = Some (Ok status, wf)
    ∧ trace w' =
      trace wf ++ mid
      ++ [EvCall "credx_string_free"
            [CPtr (string_value (heap wf) (next_ref w))]]
    ∧ (mid = [] ∨
       mid = [EvLog "warning" "JSON decode error for credx_get_current_error"])
    ∧ string_free_calls (trace w') = S (string_free_calls (trace w))
    ∧ heap w' !! next_ref w = None.
Proof.
  intros HL Hf.
  pose (wa := after (alloc (lib_string None)) w).
  assert (alloc (lib_string None) w = Some (Ok (next_ref w), wa)) as Ha by done.
  assert (get_library wa = Some (Ok lib, wa)) as Hg by by apply get_library_loaded.
  destruct (call_returns lib "credx_get_current_error" [AByref (next_ref w)] wa)
    as (status & wf & Hc).
  destruct (fetch_keeps_lib_string lib w status wf Hc) as (p & Hp & Ht & HLf).
  assert (string_value (heap wf) (next_ref w) = p) as Hv
    by (unfold string_value; by rewrite Hp).
  destruct (dlsym lib "credx_get_current_error") eqn:Hs.
  2: { unfold get_current_error, get_current_error_with. msimpl.
       by rewrite Ha, Hg, Hs. }
  intros Hx. exists status, wf.
  assert (∀ wm mid (a : option CredxError),
            LIB wm = Some lib → heap wm = heap wf →
            trace wm = trace wf ++ mid →
            mid = [] ∨
            mid = [EvLog "warning" "JSON decode error for credx_get_current_error"] →
            match drop_lib_string_with get_library (next_ref w) wm with
            | Some (Ok _, w2) => Some (Ok a, w2)
            | Some (Raise e, w2) => Some (Raise e, w2)
            | None => None
            end = Some (Ok x, w') →
            ∃ mid,
              call lib "credx_get_current_error" [AByref (next_ref w)] wa
              = Some (Ok status, wf)
              ∧ trace w' =
                trace wf ++ mid ++ [EvCall "credx_string_free" [CPtr p]]
              ∧ (mid = [] ∨
                 mid = [EvLog "warning"
                          "JSON decode error for credx_get_current_error"])
              ∧ string_free_calls (trace w') = S (string_free_calls (trace w))
              ∧ heap w' !! next_ref w = None) as Hdrop.
  { intros wm mid a HLm Hhm Htm Hmid.
    destruct (drop_lib_string_frees_free (next_ref w) p wm lib HLm Hf)
      as (w2 & E2 & Ht2 & Hh2); [by rewrite Hhm|].
    unfold drop_lib_string in E2. rewrite E2. intros [= <- <-].
    exists mid. split_and!; [done| |done| |].
    - by rewrite Ht2, Htm, <- app_assoc.
    - rewrite Ht2, Htm, Ht, !string_free_calls_app.
      destruct Hmid as [-> | ->]; cbn; lia.
    - rewrite Hh2. apply lookup_delete_eq. }
  revert Hx. rewrite Hv. fetch Ha Hg Hs Hc.
  destruct (status =? 0); cbn beta; rewrite ?Hv.
  2: { apply (Hdrop wf []); [congruence|done|by rewrite app_nil_r|by left]. }
  repeat split_inner; try (by intros [=]).
  all: first
    [ apply (Hdrop wf []); [congruence|done|by rewrite app_nil_r|by left]
    | apply (Hdrop _ [EvLog "warning"
                        "JSON decode error for credx_get_current_error"]);
      [cbn [LIB]; congruence|done|done|by right] ].
Qed.

End Facts.

(** ** The statements on the sample library *)

(** *** C7 *)

Lemma get_library_once_witness :
  (∃ w1 pre,
     @_load_library rt_error "indy_credx" (initial rt_error tt)
     = Some (Ok sample_lib, w1)
     ∧ trace (after (@get_library rt_error) (initial rt_error tt)) =
       trace (initial rt_error tt) ++ pre
       ++ [EvOpen (cdll_name sample_lib); EvCall "credx_set_default_logger" []]
     ∧ (pre = [] ∨
        pre = [EvOpen (@package_path rt_error "indy_credx");
               EvLog "warning" "Library not loaded from python package";
               EvFind "indy_credx"])
     ∧ LIB (after (@get_library rt_error) (initial rt_error tt)) = Some sample_lib
     ∧ @get_library rt_error (after get_library (initial rt_error tt))
       = Some (Ok sample_lib, after get_library (initial rt_error tt))
     ∧ ∀ w'', LIB w'' = Some sample_lib →
              @get_library rt_error w'' = Some (Ok sample_lib, w''))
  ∧ @get_library rt_error (loaded rt_error tt [])
    = Some (Ok sample_lib, loaded rt_error tt [])
  ∧ (@get_library rt_not_installed (initial rt_not_installed tt)
     = Some (Raise (CredxErrorExc (@loading_error rt_not_installed "indy_credx")),
             after (_load_library "indy_credx") (initial rt_not_installed tt))
     ∧ LIB (after (@_load_library rt_not_installed "indy_credx")
              (initial rt_not_installed tt)) = None
     ∧ ∃ r w2 rest,
         @get_library rt_not_installed
           (after (_load_library "indy_credx") (initial rt_not_installed tt))
         = Some (r, w2)
         ∧ trace w2 =
           trace (after (@_load_library rt_not_installed "indy_credx")
                    (initial rt_not_installed tt))
           ++ EvOpen (@package_path rt_not_installed "indy_credx") :: rest).
Proof.
  split; [|split].
  - apply (proj1 (@get_library_once rt_error (initial rt_error tt)) sample_lib
             (after get_library (initial rt_error tt)));
      reflexivity.
  - apply (proj1 (proj2 (@get_library_once rt_error (loaded rt_error tt [])))
             sample_lib).
    reflexivity.
  - apply (proj2 (proj2 (@get_library_once rt_not_installed
                           (initial rt_not_installed tt)))
             (CredxErrorExc (@loading_error rt_not_installed "indy_credx"))
             (after (_load_library "indy_credx") (initial rt_not_installed tt)));
      reflexivity.
Defined.

(** The library is not installed: each of two calls in a row attempts
    the load, so the load has run twice in this process. *)
Lemma get_library_load_repeated :
  @get_library rt_not_installed (initial rt_not_installed tt)
  = Some (Raise (CredxErrorExc (@loading_error rt_not_installed "indy_credx")),
          after get_library (initial rt_not_installed tt))
  ∧ @get_library rt_not_installed
      (after get_library (initial rt_not_installed tt))
    = Some (Raise (CredxErrorExc (@loading_error rt_not_installed "indy_credx")),
            after get_library (after get_library (initial rt_not_installed tt)))
  ∧ open_calls (trace (after (@get_library rt_not_installed)
                         (initial rt_not_installed tt))) = 1%nat
  ∧ open_calls (trace (after (@get_library rt_not_installed)
                         (after get_library (initial rt_not_installed tt))))
    = 2%nat
  ∧ ¬ (open_calls (trace (after (@get_library rt_not_installed)
                            (after get_library (initial rt_not_installed tt))))
       = 1%nat).
Proof. split_and!; [reflexivity..|]. intros [=]. Qed.

(** *** C5 *)

Lemma get_current_error_fields_missing_witness :
  (∃ w', @get_current_error rt_no_message false (loaded rt_no_message tt [])
         = Some (Ok None, w'))
  ∧ (∃ w', @get_current_error rt_no_message true (loaded rt_no_message tt [])
           = Some (Ok (Some (@unknown_error rt_no_message)), w'))
  ∧ (∃ w', @get_current_error rt_array false (loaded rt_array tt [])
           = Some (Ok None, w')).
Proof.
  split; [|split].
  - eapply (@get_current_error_fields_missing rt_no_message false
              (loaded rt_no_message tt []) 0%nat _ sample_lib _ _ doc_no_message
              (PDict {[ str_of "code" := PInt 1 ]}));
      [reflexivity | reflexivity | reflexivity | reflexivity | reflexivity
      | reflexivity | right; left; reflexivity].
  - eapply (@get_current_error_fields_missing rt_no_message true
              (loaded rt_no_message tt []) 0%nat _ sample_lib _ _ doc_no_message
              (PDict {[ str_of "code" := PInt 1 ]}));
      [reflexivity | reflexivity | reflexivity | reflexivity | reflexivity
      | reflexivity | right; left; reflexivity].
  - eapply (@get_current_error_fields_missing rt_array false
              (loaded rt_array tt []) 0%nat _ sample_lib _ _ doc_array
              (PList [PStr (str_of "message")]));
      [reflexivity | reflexivity | reflexivity | reflexivity | reflexivity
      | reflexivity | right; right].
    apply not_elem_of_cons. split; [discriminate | apply not_elem_of_nil].
Defined.

(** Payloads that are not objects and have neither field: the number
    [5], [true], the array [["message", "code"]] and the string
    ["message code"].  The fetch succeeds and [get_current_error] raises
    [TypeError], whatever [expect] is: it returns neither [None] nor the
    "Unknown error". *)
Lemma get_current_error_payload_not_object :
  (∀ expect, ∃ w',
     @get_current_error rt_five expect (loaded rt_five tt [])
     = Some (Raise TypeError, w'))
  ∧ (∀ expect, ∃ w',
       @get_current_error rt_true expect (loaded rt_true tt [])
       = Some (Raise TypeError, w'))
  ∧ (∀ expect, ∃ w',
       @get_current_error rt_list expect (loaded rt_list tt [])
       = Some (Raise TypeError, w'))
  ∧ (∀ expect, ∃ w',
       @get_current_error rt_string expect (loaded rt_string tt [])
       = Some (Raise TypeError, w'))
  ∧ ¬ (∃ w', @get_current_error rt_five false (loaded rt_five tt [])
             = Some (Ok None, w')).
Proof.
  split_and!; try (intros []; eexists; reflexivity).
  intros [w' Hw'].
  assert (@get_current_error rt_five false (loaded rt_five tt [])
          = Some (Raise TypeError,
                  after (@get_current_error rt_five false) (loaded rt_five tt [])))
    as E by reflexivity.
  rewrite E in Hw'. by injection Hw'.
Qed.

(** *** C6 *)

Lemma do_call_status_witness :
  @do_call rt_error "credx_set_default_logger" [] (loaded rt_error tt [])
  = Some (Ok tt, after (call sample_lib "credx_set_default_logger" [])
                   (loaded rt_error tt []))
  ∧ ∃ r w3,
      @get_current_error rt_error true
        (after (call sample_lib "credx_create_schema" []) (loaded rt_error tt []))
      = Some (r, w3)
      ∧ match r with
        | Ok (Some e) =>
            @do_call rt_error "credx_create_schema" [] (loaded rt_error tt [])
            = Some (Raise (CredxErrorExc e), w3)
        | Ok None => False
        | Raise x =>
            @do_call rt_error "credx_create_schema" [] (loaded rt_error tt [])
            = Some (Raise x, w3)
        end.
Proof.
  split.
  - apply (proj1 (@do_call_status rt_error "credx_set_default_logger" []
                    (loaded rt_error tt []) sample_lib (loaded rt_error tt []) 0
                    (after (call sample_lib "credx_set_default_logger" [])
                       (loaded rt_error tt []))
                    eq_refl eq_refl eq_refl)).
    reflexivity.
  - apply (proj2 (@do_call_status rt_error "credx_create_schema" []
                    (loaded rt_error tt []) sample_lib (loaded rt_error tt []) 1
                    (after (call sample_lib "credx_create_schema" [])
                       (loaded rt_error tt []))
                    eq_refl eq_refl eq_refl)).
    discriminate.
Defined.

(** The entry point fails and the library reports an error whose code
    (4242) is not a member of [CredxErrorCode]: what [do_call] raises is
    the [ValueError] of the lookup, not a [CredxError]. *)
Lemma do_call_lookup_raises :
  call sample_lib "credx_create_schema" []
    (loaded rt_failing_unknown_code tt [])
  = Some (Ok 1, after (call sample_lib "credx_create_schema" [])
                  (loaded rt_failing_unknown_code tt []))
  ∧ @do_call rt_failing_unknown_code "credx_create_schema" []
      (loaded rt_failing_unknown_code tt [])
    = Some (Raise ValueError,
            after (@do_call rt_failing_unknown_code "credx_create_schema" [])
              (loaded rt_failing_unknown_code tt []))
  ∧ ¬ (∃ e w',
         @do_call rt_failing_unknown_code "credx_create_schema" []
           (loaded rt_failing_unknown_code tt [])
         = Some (Raise (CredxErrorExc e), w')).
Proof.
  assert (@do_call rt_failing_unknown_code "credx_create_schema" []
            (loaded rt_failing_unknown_code tt [])
          = Some (Raise ValueError,
                  after (@do_call rt_failing_unknown_code "credx_create_schema" [])
                    (loaded rt_failing_unknown_code tt []))) as E
    by (vm_compute; reflexivity).
  split_and!; [vm_compute; reflexivity | exact E |].
  intros (e & w' & He).
  assert (H := f_equal (λ o : option (result unit * World),
                          match o with
                          | Some (Raise ValueError, _) => true
                          | _ => false
                          end) He).
  vm_compute in H. discriminate H.
Qed.

(** *** C2 *)

Lemma get_current_error_fetch_failed_witness :
  ∃ w', @get_current_error rt_fetch_fails false (loaded rt_fetch_fails tt [])
        = Some (Ok (Some (@unknown_error rt_fetch_fails)), w').
Proof.
  eapply (@get_current_error_fetch_failed rt_fetch_fails false
            (loaded rt_fetch_fails tt []) 0%nat _ sample_lib _ 1 _);
    [vm_compute; reflexivity | vm_compute; reflexivity | reflexivity
    | vm_compute; reflexivity | done].
Defined.

(** The native fetch returns 1, and [get_current_error(False)] does not
    return [None]: it returns the "Unknown error". *)
Lemma get_current_error_fetch_failed_not_None :
  ¬ (∀ r wa lib w1 status w2,
       alloc (lib_string None) (loaded rt_fetch_fails tt []) = Some (Ok r, wa) →
       @get_library rt_fetch_fails wa = Some (Ok lib, w1) →
       call lib "credx_get_current_error" [AByref r] w1 = Some (Ok status, w2) →
       status ≠ 0 →
       ∃ w', @get_current_error rt_fetch_fails false (loaded rt_fetch_fails tt [])
             = Some (Ok None, w')).
Proof.
  intros Hc.
  destruct (Hc 0%nat _ sample_lib _ 1 _ eq_refl eq_refl eq_refl) as [w' Hw'];
    [done|].
  vm_compute in Hw'. discriminate.
Qed.

(** *** C3 *)

Lemma get_current_error_null_witness :
  @get_current_error rt_null false (loaded rt_null tt [])
  = Some (Raise TypeError,
          after (call sample_lib "credx_get_current_error" [AByref 0%nat])
            (after (alloc (lib_string None)) (loaded rt_null tt []))).
Proof.
  apply (@get_current_error_null rt_null false (loaded rt_null tt []) 0%nat
           (after (alloc (lib_string None)) (loaded rt_null tt [])) sample_lib
           (after (alloc (lib_string None)) (loaded rt_null tt [])));
    vm_compute; reflexivity.
Defined.

(** *** C9 *)

Lemma get_current_error_unknown_code_witness :
  (4242 ∉ @CredxErrorCode_members rt_unknown_code)
  ∧ ∃ w', @get_current_error rt_unknown_code true (loaded rt_unknown_code tt [])
          = Some (Raise ValueError, w').
Proof.
  assert (4242 ∉ @CredxErrorCode_members rt_unknown_code) as Hc
    by (apply (bool_decide_unpack _); vm_compute; exact I).
  split; [exact Hc|]. eexists.
  eapply (@get_current_error_unknown_code rt_unknown_code true
            (loaded rt_unknown_code tt []) 0%nat _ sample_lib _ _ doc_unknown_code
            {[ str_of "code" := PInt 4242;
               str_of "message" := PStr (str_of "boom") ]}
            (PStr (str_of "boom")) 4242);
    [vm_compute; reflexivity | vm_compute; reflexivity | reflexivity
    | vm_compute; reflexivity | vm_compute; reflexivity
    | vm_compute; reflexivity | vm_compute; reflexivity
    | vm_compute; reflexivity | exact Hc].
Defined.

(** *** C4 *)

Lemma drop_lib_string_frees_once_witness :
  ∃ w', @drop_lib_string rt_error 0%nat
          (loaded rt_error tt [lib_string (Some doc_error)]) = Some (Ok tt, w')
        ∧ trace w' = [EvCall "credx_string_free" [CPtr (Some doc_error)]]
        ∧ string_free_calls (trace w') = 1%nat
        ∧ heap w' !! 0%nat = None.
Proof.
  apply (@drop_lib_string_frees_once rt_error 0%nat (Some doc_error)
           (loaded rt_error tt [lib_string (Some doc_error)]) sample_lib);
    vm_compute; reflexivity.
Defined.

(** A [lib_string] that wraps a null reference: the end of its lifetime
    calls [credx_string_free] all the same. *)
Lemma drop_lib_string_null_calls_free :
  ¬ (∀ w', @drop_lib_string rt_error 0%nat (loaded rt_error tt [lib_string None])
           = Some (Ok tt, w') →
           string_free_calls (trace w')
           = string_free_calls (trace (loaded rt_error tt [lib_string None]))).
Proof.
  intros Hc.
  specialize (Hc (after (drop_lib_string 0%nat)
                    (loaded rt_error tt [lib_string None]))).
  vm_compute in Hc. specialize (Hc eq_refl). discriminate.
Qed.

(** *** C1 *)

Lemma drop_ObjectHandles_free_calls_witness :
  ∃ w', @drop_ObjectHandles rt_error [0; 1]%nat
          (loaded rt_error tt [ObjectHandle 7; ObjectHandle 7]) = Some (Ok tt, w')
        ∧ ∀ v, object_free_calls v (trace w')
               = (object_free_calls v
                    (trace (loaded rt_error tt [ObjectHandle 7; ObjectHandle 7]))
                  + length (filter
                      (λ r, @handle_value
                              (heap (loaded rt_error tt
                                       [ObjectHandle 7; ObjectHandle 7])) r = v)
                      [0; 1]%nat))%nat.
Proof.
  apply (@drop_ObjectHandles_free_calls rt_error [0; 1]%nat
           (loaded rt_error tt [ObjectHandle 7; ObjectHandle 7]) sample_lib).
  - reflexivity.
  - reflexivity.
  - apply (bool_decide_unpack _). vm_compute. exact I.
  - intros r Hr. exists 7.
    apply elem_of_cons in Hr as [-> | Hr]; [vm_compute; reflexivity|].
    apply elem_of_cons in Hr as [-> | Hr]; [vm_compute; reflexivity|].
    by apply elem_of_nil in Hr.
Defined.

(** Two instances carry the handle value 7; when both lifetimes have
    ended, [credx_object_free] has been called twice for 7. *)
Lemma object_free_called_twice :
  ¬ (∀ w', @drop_ObjectHandles rt_error [0; 1]%nat
             (loaded rt_error tt [ObjectHandle 7; ObjectHandle 7])
           = Some (Ok tt, w') →
           (object_free_calls 7 (trace w') ≤ 1)%nat).
Proof.
  intros Hc.
  specialize (Hc (after (drop_ObjectHandles [0; 1]%nat)
                    (loaded rt_error tt [ObjectHandle 7; ObjectHandle 7]))).
  vm_compute in Hc. specialize (Hc eq_refl). lia.
Qed.

(** *** C10 *)




(** ** More on the codec *)

Lemma fmap_cons_Some (c : Z) (o : option (list Z)) s :
  cons c <$> o = Some s → ∃ s', o = Some s' ∧ s = c :: s'.
Proof. destruct o as [s'|]; intros [= <-]; eauto. Qed.

Ltac reflect_all :=
  repeat first
    [ progress reflect_tests
    | match goal with
      | H : negb _ = true |- _ => apply negb_true_iff in H
      | H : negb _ = false |- _ => apply negb_false_iff in H
      end ].

Lemma decode_inverse n : ∀ b s,
  (length b ≤ n)%nat → Utf8.decode b = Some s → Utf8.encode s = Some b.
Proof.
  induction n as [|n IH]; intros b s Hn.
  { destruct b; [|cbn in Hn; lia]. by intros [= <-]. }
  destruct b as [|b0 r0]; [by intros [= <-]|].
  cbn [Utf8.decode]. cbv zeta.
  unfold Utf8.is_cont, Utf8.is_surrogate.
  repeat case_match; try done; reflect_all; subst;
    intros (s' & Hs' & ->)%fmap_cons_Some;
    (apply IH in Hs'; [|cbn [length] in *; lia]);
    cbn [Utf8.encode]; rewrite Hs'; unfold Utf8.encode_char, Utf8.is_surrogate.
  all: repeat decide_test; cbn [andb app]; repeat f_equal; euclid.
Qed.

(** The decoder accepts canonical UTF-8 only: what it decodes is free
    of surrogates and encodes back to the same octets. *)
Theorem decode_str_canonical b s :
  decode_str b = Ok s →
  Forall Utf8.scalar s ∧ encode_str (Some (SStr s)) = Ok (ACharP b).
Proof.
  unfold decode_str, encode_str.
  destruct (Utf8.decode b) as [s'|] eqn:Hd; [|done]. intros [= <-].
  apply (decode_inverse (length b)) in Hd; [|done].
  split; [apply encode_scalars; eauto|]. by rewrite Hd.
Qed.

Lemma encode_char_octets c b :
  Utf8.encode_char c = Some b →
  Forall (λ x, 0 ≤ x < 256) b ∧ (1 ≤ length b ≤ 4)%nat
  ∧ (c ≠ 0 → Forall (λ x, x ≠ 0) b).
Proof.
  unfold Utf8.encode_char, Utf8.is_surrogate.
  repeat case_match; try done; reflect_all; intros [= <-];
    (split_and!; [repeat constructor; euclid | cbn; lia | cbn; lia
                 | intros; repeat constructor; euclid]).
Qed.

(** What [str.encode] gives is made of octets, one to four for each
    code point. *)
Theorem encode_octets s b :
  Utf8.encode s = Some b →
  Forall (λ x, 0 ≤ x < 256) b
  ∧ (length s ≤ length b ≤ 4 * length s)%nat.
Proof.
  revert b. induction s as [|c s IH]; intros b; cbn [Utf8.encode].
  { intros [= <-]. split; [constructor|cbn; lia]. }
  destruct (Utf8.encode_char c) as [bc|] eqn:Hc; [|done].
  destruct (Utf8.encode s) as [bs|] eqn:Hs; [|done]. intros [= <-].
  destruct (encode_char_octets c bc Hc) as (Hb & Hl & _).
  destruct (IH bs eq_refl) as (Hb' & Hl').
  split; [by apply Forall_app|]. rewrite length_app. cbn [length]. lia.
Qed.

Lemma encode_app s1 s2 b1 b2 :
  Utf8.encode s1 = Some b1 → Utf8.encode s2 = Some b2 →
  Utf8.encode (s1 ++ s2) = Some (b1 ++ b2).
Proof.
  revert b1. induction s1 as [|c s1 IH]; intros b1; cbn [Utf8.encode app].
  { by intros [= <-]. }
  destruct (Utf8.encode_char c) as [bc|]; [|done].
  destruct (Utf8.encode s1) as [bs|]; [|done]. intros [= <-] H2.
  by rewrite (IH bs eq_refl H2), <- app_assoc.
Qed.

Lemma encode_no_nul s b :
  Forall (λ c, c ≠ 0) s → Utf8.encode s = Some b → Forall (λ x, x ≠ 0) b.
Proof.
  intros Hs. revert b. induction Hs as [|c s Hc _ IH]; intros b; cbn [Utf8.encode].
  { intros [= <-]. constructor. }
  destruct (Utf8.encode_char c) as [bc|] eqn:E; [|done].
  destruct (Utf8.encode s) as [bs|]; [|done]. intros [= <-].
  apply Forall_app. split; [|by apply IH].
  by apply (encode_char_octets c bc E).
Qed.

Lemma c_string_nul b r : Forall (λ x, x ≠ 0) b → c_string (b ++ 0 :: r) = b.
Proof.
  induction 1 as [|x b Hx _ IH]; [done|]. cbn [app c_string].
  by rewrite (proj2 (Z.eqb_neq x 0) Hx), IH.
Qed.

(** C8, as amended: for every text value [s] that holds neither a
    surrogate code point (U+D800 to U+DFFF) nor U+0000, [encode_str]
    gives a [c_char_p] over the UTF-8 octets of [s], the native side
    reads exactly these octets, and [decode_str] on the octets it echoes
    gives [s] back. *)
Theorem encode_decode_str_echo s h :
  Forall Utf8.scalar s →
  Forall (λ c, c ≠ 0) s →
  ∃ b echo,
    encode_str (Some (SStr s)) = Ok (ACharP b)
    ∧ Utf8.encode s = Some b
    ∧ marshal h (ACharP b) = CChars echo
    ∧ echo = b
    ∧ decode_str echo = Ok s.
Proof.
  intros Hs Hz. apply encode_scalars in Hs as [b Hb]. exists b, b.
  unfold encode_str, decode_str. rewrite Hb, (decode_encode s b Hb).
  split_and!; try done.
  cbn [marshal]. by rewrite (c_string_no_nul b (encode_no_nul s b Hz Hb)).
Qed.

Lemma encode_decode_str_echo_witness :
  Forall Utf8.scalar sample_text
  ∧ Forall (λ c, c ≠ 0) sample_text
  ∧ ∃ b echo,
      encode_str (Some (SStr sample_text)) = Ok (ACharP b)
      ∧ Utf8.encode sample_text = Some b
      ∧ marshal ∅ (ACharP b) = CChars echo
      ∧ echo = b
      ∧ decode_str echo = Ok sample_text.
Proof.
  assert (Forall Utf8.scalar sample_text) as Hs
    by (repeat constructor; unfold Utf8.scalar; lia).
  assert (Forall (λ c, c ≠ 0) sample_text) as Hz by (repeat constructor; lia).
  split_and!; [exact Hs | exact Hz |].
  exact (encode_decode_str_echo sample_text ∅ Hs Hz).
Defined.

(** Two text values for which the round trip fails.  A lone surrogate
    has no encoding: [encode_str] raises.  A text with U+0000 in it is
    encoded, but the native side reads it up to the U+0000 only, and
    what it echoes decodes to the text before the U+0000. *)
Lemma encode_str_echo_differs :
  encode_str (Some (SStr [0xD800])) = Raise UnicodeEncodeError
  ∧ (¬ ∃ b, encode_str (Some (SStr [0xD800])) = Ok (ACharP b))
  ∧ Forall Utf8.scalar [97; 0; 98]
  ∧ encode_str (Some (SStr [97; 0; 98])) = Ok (ACharP [97; 0; 98])
  ∧ marshal ∅ (ACharP [97; 0; 98]) = CChars [97]
  ∧ decode_str [97] = Ok [97]
  ∧ decode_str [97] ≠ Ok [97; 0; 98].
Proof.
  split_and!; try reflexivity.
  - by intros [b [=]].
  - repeat constructor; unfold Utf8.scalar; lia.
  - by intros [=].
Qed.


(** [encode_str] lets U+0000 through, and the native side reads the text
    up to the first U+0000 only. *)
Theorem encode_str_nul s1 s2 b1 h :
  Forall (λ c, c ≠ 0) s1 →
  Utf8.encode s1 = Some b1 →
  is_Some (Utf8.encode s2) →
  ∃ b, encode_str (Some (SStr (s1 ++ 0 :: s2))) = Ok (ACharP b)
       ∧ marshal h (ACharP b) = CChars b1.
Proof.
  intros Hs H1 [b2 H2].
  assert (Utf8.encode (0 :: s2) = Some (0 :: b2)) as H02
    by (cbn [Utf8.encode]; rewrite H2; reflexivity).
  exists (b1 ++ 0 :: b2). unfold encode_str.
  rewrite (encode_app s1 (0 :: s2) b1 (0 :: b2) H1 H02). split; [done|].
  cbn [marshal]. by rewrite (c_string_nul b1 b2 (encode_no_nul s1 b1 Hs H1)).
Qed.

(** Without U+0000 the native side reads every octet. *)
Theorem encode_str_whole s b h :
  Forall (λ c, c ≠ 0) s →
  Utf8.encode s = Some b →
  encode_str (Some (SStr s)) = Ok (ACharP b)
  ∧ marshal h (ACharP b) = CChars b.
Proof.
  intros Hs Hb. unfold encode_str. rewrite Hb. split; [done|].
  cbn [marshal]. by rewrite (c_string_no_nul b (encode_no_nul s b Hs Hb)).
Qed.

(** ** More statements on the sample library *)

Lemma decode_str_canonical_witness :
  Forall Utf8.scalar sample_text
  ∧ encode_str (Some (SStr sample_text))
    = Ok (ACharP sample_octets).
Proof.
  apply (decode_str_canonical
           sample_octets).
  reflexivity.
Defined.

Lemma encode_octets_witness :
  Forall (λ x, 0 ≤ x < 256)
    sample_octets
  ∧ (length sample_text
     ≤ length sample_octets
     ≤ 4 * length sample_text)%nat.
Proof.
  apply (encode_octets sample_text).
  reflexivity.
Defined.

Lemma encode_str_nul_witness :
  ∃ b, encode_str (Some (SStr (str_of "ab" ++ 0 :: str_of "cd"))) = Ok (ACharP b)
       ∧ marshal ∅ (ACharP b) = CChars (str_of "ab").
Proof.
  apply (encode_str_nul (str_of "ab") (str_of "cd") (str_of "ab") ∅).
  - repeat constructor; vm_compute; discriminate.
  - reflexivity.
  - eexists. reflexivity.
Defined.

Lemma encode_str_whole_witness :
  encode_str (Some (SStr (str_of "degree"))) = Ok (ACharP (str_of "degree"))
  ∧ marshal ∅ (ACharP (str_of "degree")) = CChars (str_of "degree").
Proof.
  apply (encode_str_whole (str_of "degree") (str_of "degree") ∅).
  - repeat constructor; vm_compute; discriminate.
  - reflexivity.
Defined.

Lemma _load_library_first_open_witness :
  @package_path rt_darwin "indy_credx"
  = "/site-packages/indy_credx/libindy_credx.dylib".
Proof.
  destruct (@_load_library_first_open rt_darwin "indy_credx"
              (initial rt_darwin tt)) as (r & w' & rest & _ & _ & _ & Hd & _).
  rewrite (Hd eq_refl). reflexivity.
Defined.

Lemma _load_library_package_witness :
  ∃ w', @_load_library rt_error "indy_credx" (initial rt_error tt)
        = Some (Ok (mkCDLL (@package_path rt_error "indy_credx") 1), w')
        ∧ trace w' = trace (initial rt_error tt)
                     ++ [EvOpen (@package_path rt_error "indy_credx")]
        ∧ host w' = tt.
Proof.
  apply (@_load_library_package rt_error "indy_credx" (initial rt_error tt) 1 tt).
  reflexivity.
Defined.

Lemma _load_library_fallback_witness :
  ∃ w', @_load_library rt_system "indy_credx" (initial rt_system tt)
        = Some (Ok (mkCDLL system_path 2), w')
        ∧ trace w' =
          trace (initial rt_system tt) ++
          [EvOpen (@package_path rt_system "indy_credx");
           EvLog "warning" "Library not loaded from python package";
           EvFind "indy_credx"; EvOpen system_path].
Proof.
  apply (@_load_library_fallback rt_system "indy_credx" (initial rt_system tt)
           tt system_path 2 tt);
    [reflexivity | reflexivity | discriminate | reflexivity].
Defined.

Lemma _load_library_raises_witness :
  @_load_library rt_not_installed "indy_credx" (initial rt_not_installed tt)
  = Some (Raise (CredxErrorExc (mkCredxError 99
                   (PStr (str_of "Error loading library: indy_credx")) PNone)),
          after (_load_library "indy_credx") (initial rt_not_installed tt))
  ∧ CredxErrorExc (mkCredxError 99
      (PStr (str_of "Error loading library: indy_credx")) PNone)
    = CredxErrorExc (@loading_error rt_not_installed "indy_credx").
Proof.
  assert (@_load_library rt_not_installed "indy_credx"
            (initial rt_not_installed tt)
          = Some (Raise (CredxErrorExc (mkCredxError 99
                     (PStr (str_of "Error loading library: indy_credx")) PNone)),
                  after (_load_library "indy_credx")
                    (initial rt_not_installed tt))) as Hr
    by (reflexivity).
  split; [exact Hr|]. exact (_load_library_raises _ _ _ _ Hr).
Defined.

Lemma _load_library_not_found_witness :
  ∃ w', @_load_library rt_not_installed "indy_credx" (initial rt_not_installed tt)
        = Some (Raise (CredxErrorExc (@loading_error rt_not_installed "indy_credx")),
                w')
        ∧ trace w' =
          trace (initial rt_not_installed tt) ++
          [EvOpen (@package_path rt_not_installed "indy_credx");
           EvLog "warning" "Library not loaded from python package";
           EvFind "indy_credx"].
Proof.
  apply (@_load_library_not_found rt_not_installed "indy_credx"
           (initial rt_not_installed tt) tt);
    [reflexivity | left; reflexivity].
Defined.

Lemma get_library_load_failure_witness :
  @get_library rt_not_installed (initial rt_not_installed tt)
  = Some (Raise (CredxErrorExc (@loading_error rt_not_installed "indy_credx")),
          after (_load_library "indy_credx") (initial rt_not_installed tt))
  ∧ LIB (after (@_load_library rt_not_installed "indy_credx")
           (initial rt_not_installed tt)) = None.
Proof.
  apply (@get_library_load_failure rt_not_installed (initial rt_not_installed tt));
    [reflexivity | reflexivity].
Defined.

Lemma get_library_first_call_witness :
  @get_library rt_error (initial rt_error tt)
  = Some (Ok sample_lib, after get_library (initial rt_error tt))
  ∧ LIB (after (@get_library rt_error) (initial rt_error tt)) = Some sample_lib
  ∧ trace (after (@get_library rt_error) (initial rt_error tt)) =
    trace (initial rt_error tt) ++
    [EvOpen (@package_path rt_error "indy_credx");
     EvCall "credx_set_default_logger" []].
Proof.
  apply (@get_library_first_call rt_error (initial rt_error tt) 1 tt sample_lib);
    [reflexivity | reflexivity | reflexivity
    | reflexivity | reflexivity].
Defined.

Lemma get_library_logger_failure_witness :
  ∃ e w', @get_library rt_logger_fails (initial rt_logger_fails tt)
          = Some (Raise e, w')
          ∧ LIB w' = Some sample_lib
          ∧ @get_library rt_logger_fails w' = Some (Ok sample_lib, w').
Proof.
  apply (@get_library_logger_failure rt_logger_fails (initial rt_logger_fails tt)
           sample_lib
           (after (_load_library "indy_credx") (initial rt_logger_fails tt)) 1
           (after (call sample_lib "credx_set_default_logger" [])
              (after (set_LIB sample_lib)
                 (after (_load_library "indy_credx")
                    (initial rt_logger_fails tt)))));
    [reflexivity | reflexivity | reflexivity
    | reflexivity | done].
Defined.

Lemma do_call_missing_symbol_witness :
  @do_call rt_no_version "credx_version" [] (loaded rt_no_version tt [])
  = Some (Raise AttributeError, loaded rt_no_version tt []).
Proof.
  apply (@do_call_missing_symbol rt_no_version "credx_version" []
           (loaded rt_no_version tt []) sample_lib);
    reflexivity.
Defined.


Lemma get_current_error_malformed_witness :
  ∃ w', @get_current_error rt_garbage false (loaded rt_garbage tt [])
        = Some (Ok None, w')
        ∧ ∃ rest, trace w' =
            trace (after (call sample_lib "credx_get_current_error" [AByref 0%nat])
                     (after (alloc (lib_string None)) (loaded rt_garbage tt [])))
            ++ EvLog "warning" "JSON decode error for credx_get_current_error"
            :: rest.
Proof.
  apply (@get_current_error_malformed rt_garbage false (loaded rt_garbage tt [])
           0%nat (after (alloc (lib_string None)) (loaded rt_garbage tt []))
           sample_lib
           (after (alloc (lib_string None)) (loaded rt_garbage tt []))
           _ (str_of "oops"));
    reflexivity.
Defined.

Lemma get_current_error_loads_raises_witness :
  @get_current_error rt_not_utf8 false (loaded rt_not_utf8 tt [])
  = Some (Raise UnicodeDecodeError,
          after (call sample_lib "credx_get_current_error" [AByref 0%nat])
            (after (alloc (lib_string None)) (loaded rt_not_utf8 tt []))).
Proof.
  apply (@get_current_error_loads_raises rt_not_utf8 false
           (loaded rt_not_utf8 tt []) 0%nat
           (after (alloc (lib_string None)) (loaded rt_not_utf8 tt []))
           sample_lib
           (after (alloc (lib_string None)) (loaded rt_not_utf8 tt []))
           _ [0xFF]);
    first [reflexivity | discriminate].
Defined.

Lemma get_current_error_structured_witness :
  ∃ w', @get_current_error rt_error false (loaded rt_error tt [])
        = Some (Ok (Some (mkCredxError 1 (PStr (str_of "boom"))
                            (default PNone
                               (({[ str_of "code" := PInt 1;
                                    str_of "message" := PStr (str_of "boom") ]}
                                 : gmap (list Z) pyvalue)
                                !! str_of "extra")))), w').
Proof.
  eapply (@get_current_error_structured rt_error false (loaded rt_error tt [])
            0%nat _ sample_lib _ _ doc_error
            {[ str_of "code" := PInt 1;
               str_of "message" := PStr (str_of "boom") ]}
            (PStr (str_of "boom")) 1);
    first [reflexivity | apply (bool_decide_unpack _); vm_compute; exact I].
Defined.

Lemma get_current_error_number_witness :
  @get_current_error rt_five false (loaded rt_five tt [])
  = Some (Raise TypeError,
          after (call sample_lib "credx_get_current_error" [AByref 0%nat])
            (after (alloc (lib_string None)) (loaded rt_five tt []))).
Proof.
  apply (@get_current_error_number rt_five false (loaded rt_five tt []) 0%nat
           (after (alloc (lib_string None)) (loaded rt_five tt []))
           sample_lib
           (after (alloc (lib_string None)) (loaded rt_five tt []))
           _ (str_of "5") 5);
    first [reflexivity | discriminate].
Defined.

Lemma object_get_json_success_witness :
  ∃ w', @object_get_json rt_json 0%nat (loaded rt_json tt [ObjectHandle 7])
        = Some (Ok 1%nat, w')
        ∧ heap w' = <[1%nat := lib_string (Some doc_no_message)]>
                      (heap (loaded rt_json tt [ObjectHandle 7]))
        ∧ string_value (heap w') 1%nat = Some doc_no_message
        ∧ LIB w' = Some sample_lib ∧ host w' = tt ∧ next_ref w' = 2%nat
        ∧ trace w' =
          trace (loaded rt_json tt [ObjectHandle 7]) ++
          [EvCall "credx_object_get_json" [CInt 7; COut 1%nat]].
Proof.
  apply (@object_get_json_success rt_json 0%nat 7
           (loaded rt_json tt [ObjectHandle 7]) sample_lib
           (Some doc_no_message) tt); reflexivity.
Defined.

Lemma to_json_text_witness :
  ∃ w', @to_json rt_json 0%nat (loaded rt_json tt [ObjectHandle 7])
        = Some (Ok doc_no_message, w')
        ∧ heap w' = heap (loaded rt_json tt [ObjectHandle 7])
        ∧ trace w' =
          trace (loaded rt_json tt [ObjectHandle 7]) ++
          [EvCall "credx_object_get_json" [CInt 7; COut 1%nat];
           EvCall "credx_string_free" [CPtr (Some doc_no_message)]].
Proof.
  apply (@to_json_text rt_json 0%nat 7 (loaded rt_json tt [ObjectHandle 7])
           sample_lib doc_no_message doc_no_message tt); reflexivity.
Defined.

Lemma to_json_null_witness :
  ∃ w', @to_json rt_json_null 0%nat (loaded rt_json_null tt [ObjectHandle 7])
        = Some (Ok [], w')
        ∧ heap w' = heap (loaded rt_json_null tt [ObjectHandle 7])
        ∧ trace w' =
          trace (loaded rt_json_null tt [ObjectHandle 7]) ++
          [EvCall "credx_object_get_json" [CInt 7; COut 1%nat];
           EvCall "credx_string_free" [CPtr None]].
Proof.
  apply (@to_json_null rt_json_null 0%nat 7
           (loaded rt_json_null tt [ObjectHandle 7]) sample_lib tt); reflexivity.
Defined.

Lemma create_schema_success_witness :
  ∃ w', @create_schema rt_handle (str_of "did:example:123") (str_of "degree")
          (str_of "1.0") [str_of "name"; str_of "age"] None
          (loaded rt_handle tt [])
        = Some (Ok 0%nat, w')
        ∧ handle_value (heap w') 0%nat = 42
        ∧ trace w' =
          trace (loaded rt_handle tt []) ++
          [EvCall "credx_create_schema"
             [CChars (c_string (str_of "did:example:123"));
              CChars (c_string (str_of "degree"));
              CChars (c_string (str_of "1.0"));
              CChars (c_string (@json_dumps rt_handle
                                  [str_of "name"; str_of "age"]));
              CInt (wrap64 (int_or None (-1))); COut 0%nat]].
Proof.
  apply (@create_schema_success rt_handle (str_of "did:example:123")
           (str_of "degree") (str_of "1.0") [str_of "name"; str_of "age"] None
           (loaded rt_handle tt []) sample_lib
           (str_of "did:example:123") (str_of "degree") (str_of "1.0")
           (@json_dumps rt_handle [str_of "name"; str_of "age"]) 42 tt);
    reflexivity.
Defined.

Lemma create_schema_unencodable_witness :
  ∃ w', @create_schema rt_error (str_of "did:example:123") [0xD800]
          (str_of "1.0") [str_of "name"] None (loaded rt_error tt [])
        = Some (Raise UnicodeEncodeError, w')
        ∧ trace w' = trace (loaded rt_error tt [])
        ∧ host w' = host (loaded rt_error tt [])
        ∧ LIB w' = LIB (loaded rt_error tt []).
Proof.
  apply (@create_schema_unencodable rt_error).
  right. left. reflexivity.
Defined.

Lemma create_schema_seq_no_int64_witness :
  ∃ res w' evs z,
    @create_schema rt_error (str_of "did:example:123") (str_of "degree")
      (str_of "1.0") [str_of "name"; str_of "age"] (Some (2 ^ 64 + 5))
      (loaded rt_error tt [])
    = Some (res, w')
    ∧ trace w' = trace (loaded rt_error tt []) ++ evs
    ∧ seq_no_passed evs = Some z
    ∧ - 2 ^ 63 ≤ z < 2 ^ 63
    ∧ (z - int_or (Some (2 ^ 64 + 5)) (-1)) mod 2 ^ 64 = 0.
Proof.
  apply (@create_schema_seq_no_int64 rt_error (str_of "did:example:123")
           (str_of "degree") (str_of "1.0") [str_of "name"; str_of "age"]
           (Some (2 ^ 64 + 5)) (loaded rt_error tt []) sample_lib);
    first [reflexivity | eexists; reflexivity].
Defined.


Lemma get_current_error_releases_witness :
  ∃ status wf mid,
    call sample_lib "credx_get_current_error"
      [AByref (next_ref (loaded rt_error tt []))]
      (after (alloc (lib_string None)) (loaded rt_error tt []))
    = Some (Ok status, wf)
    ∧ trace (after (@get_current_error rt_error false) (loaded rt_error tt [])) =
      trace wf ++ mid
      ++ [EvCall "credx_string_free"
            [CPtr (string_value (heap wf) (next_ref (loaded rt_error tt [])))]]
    ∧ (mid = [] ∨
       mid = [EvLog "warning" "JSON decode error for credx_get_current_error"])
    ∧ string_free_calls
        (trace (after (@get_current_error rt_error false) (loaded rt_error tt [])))
      = S (string_free_calls (trace (loaded rt_error tt [])))
    ∧ heap (after (@get_current_error rt_error false) (loaded rt_error tt []))
      !! next_ref (loaded rt_error tt []) = None.
Proof.
  apply (@get_current_error_releases rt_error false (loaded rt_error tt [])
           sample_lib
           (Some (mkCredxError 1 (PStr (str_of "boom")) PNone)));
    [reflexivity | reflexivity | reflexivity].
Defined.
